(** * Space shooter: the simulation core of [game_Version3.js]

    A shallow embedding of the game state, [reset], [spawnAsteroid], [shoot],
    [step], the driver [loop] and the key handlers, followed by the properties
    of the specification that were checked against them.

    Numbers.  JavaScript numbers are modelled as exact rationals ([Q]); the
    score, which only ever receives [Math.floor] results, is an integer ([Z]).
    The rounding of doubles shows in one place that matters here: [rand(min,
    max)] can return [max] itself ([rand_binary64] computes it in binary64
    for [rand(18, 44)]), which no draw below 1 gives in exact arithmetic.
    The bounds that depend on it are therefore proved for draws from 0 to 1
    with 1 included ([random_upto_one]), the draw at which exact arithmetic
    returns [max].

    Environment.  [Math.random], [performance.now], [Math.cos], [Math.sin],
    [Math.PI] and the canvas client size are not computed by the program; they
    are fields of [Env].  [Math.random] and [performance.now] return a new
    value at each call, so they are streams indexed by the number of calls
    made so far, which the [World] counts.  The canvas size is read at each
    call and can change between two calls (the window is resized): a sequence
    of calls may give each call an environment of its own ([played]).

    Scope.  The embedding is of the functions, on the worlds they are given.
    The top-level statements of the script are not run: as shipped, the call
    [resize()] of line 20 reaches [updateDebug], which reads [debugEl] and
    [state] before the declarations of lines 34 and 83 have been evaluated,
    and the script stops there.  [boot] is what lines 83, 113 and 352 make,
    taken by themselves; it is used to build sample worlds only.  The
    canvas set-up, the debug overlay and the drawing functions do not write
    the state; of [render], the one read that can throw is modelled
    ([render], [frame]).

    Faults.  Reading a property of [undefined] or [null] (an array read past
    the end, [state.ship] when it is [null]) throws a TypeError in JavaScript.
    Such a read is [None] here: the functions that index arrays return
    [option]. *)

From Stdlib Require Import QArith Qround Qminmax Lqa ZArith Lia Floats.
From stdpp Require Import base option list strings gmap.

Open Scope Q_scope.

(** ** Numbers *)

(** [x < y] on JavaScript numbers, as a boolean. *)
Definition Qltb (x y : Q) : bool := negb (Qle_bool y x).

(** [Math.hypot(dx, dy) < r].  The square root is not rational; since
    [Math.hypot] is never negative the comparison holds exactly when [r] is
    positive and [dx*dx + dy*dy < r*r], which is what is computed. *)
Definition hypot_lt (dx dy r : Q) : bool :=
  Qltb 0 r && Qltb (dx * dx + dy * dy) (r * r).

(** [Math.floor], as a number again. *)
Definition floorQ (x : Q) : Q := inject_Z (Qfloor x).

(** ** Entities *)

Module Ship.
Record t : Type := mk
  { x : Q; y : Q; vx : Q; vy : Q; angle : Q; radius : Q; thrust : Q }.
End Ship.

Module Bullet.
Record t : Type := mk { x : Q; y : Q; vx : Q; vy : Q; life : Q }.
End Bullet.

Module Asteroid.
Record t : Type := mk
  { x : Q; y : Q; vx : Q; vy : Q; radius : Q; rot : Q; rotSpeed : Q }.
End Asteroid.

(** ** The [state] object

    [_shotCooldown] is not in the object literal: it is [undefined] ([None])
    until the first shot assigns it. *)
Record State : Type := mkState
  { ship : option Ship.t;
    bullets : list Bullet.t;
    asteroids : list Asteroid.t;
    score : Z;
    lastSpawn : Q;
    spawnInterval : Q;
    lastTime : Q;
    gameOver : bool;
    _shotCooldown : option Q }.

Definition set_ship v (st : State) : State :=
  mkState v (bullets st) (asteroids st) (score st) (lastSpawn st)
    (spawnInterval st) (lastTime st) (gameOver st) (_shotCooldown st).
Definition set_bullets v (st : State) : State :=
  mkState (ship st) v (asteroids st) (score st) (lastSpawn st)
    (spawnInterval st) (lastTime st) (gameOver st) (_shotCooldown st).
Definition set_asteroids v (st : State) : State :=
  mkState (ship st) (bullets st) v (score st) (lastSpawn st)
    (spawnInterval st) (lastTime st) (gameOver st) (_shotCooldown st).
Definition set_score v (st : State) : State :=
  mkState (ship st) (bullets st) (asteroids st) v (lastSpawn st)
    (spawnInterval st) (lastTime st) (gameOver st) (_shotCooldown st).
Definition set_lastSpawn v (st : State) : State :=
  mkState (ship st) (bullets st) (asteroids st) (score st) v
    (spawnInterval st) (lastTime st) (gameOver st) (_shotCooldown st).
Definition set_spawnInterval v (st : State) : State :=
  mkState (ship st) (bullets st) (asteroids st) (score st) (lastSpawn st)
    v (lastTime st) (gameOver st) (_shotCooldown st).
Definition set_lastTime v (st : State) : State :=
  mkState (ship st) (bullets st) (asteroids st) (score st) (lastSpawn st)
    (spawnInterval st) v (gameOver st) (_shotCooldown st).
Definition set_gameOver v (st : State) : State :=
  mkState (ship st) (bullets st) (asteroids st) (score st) (lastSpawn st)
    (spawnInterval st) (lastTime st) v (_shotCooldown st).
Definition set_shotCooldown v (st : State) : State :=
  mkState (ship st) (bullets st) (asteroids st) (score st) (lastSpawn st)
    (spawnInterval st) (lastTime st) (gameOver st) v.

(** ** The globals of the script

    [state], the [keys] object filled by the key handlers, the two debug
    toggles, and the number of calls made so far to [Math.random] and to
    [performance.now]. *)
Record World : Type := mkWorld
  { state : State;
    keys : gmap string bool;
    spawnFastToggle : bool;
    shipSpeedMult : Q;
    randomCalls : nat;
    nowCalls : nat }.

Definition upd (f : State -> State) (w : World) : World :=
  mkWorld (f (state w)) (keys w) (spawnFastToggle w) (shipSpeedMult w)
    (randomCalls w) (nowCalls w).

(** [keys[code]] used as a condition: a missing property is [undefined]. *)
Definition key (code : string) (w : World) : bool :=
  default false (keys w !! code).

Definition SPAWN_INTERVAL_BASE : Q := 1200.

(** ** What the program reads from outside *)
Record Env : Type := mkEnv
  { Math_random : nat -> Q;
    performance_now : nat -> Q;
    Math_cos : Q -> Q;
    Math_sin : Q -> Q;
    Math_PI : Q;
    clientWidth : Q;
    clientHeight : Q }.

(** [Math.random()] returns a number in [[0, 1)]. *)
Definition random_in_unit (E : Env) : Prop :=
  forall n : nat, 0 <= Math_random E n /\ Math_random E n < 1.

(** The draws as they act through [rand] once its arithmetic is rounded: from
    0 to 1, with 1 included.  In exact arithmetic [rand(min, max)] stays
    below [max] for a draw below 1; in doubles the sum can round up to [max]
    ([rand_binary64_reaches_max] below), which is the exact value at a draw
    of 1. *)
Definition random_upto_one (E : Env) : Prop :=
  forall n : nat, 0 <= Math_random E n /\ Math_random E n <= 1.

(** [canvas.clientWidth] and [canvas.clientHeight] are never negative. *)
Definition client_size_ok (E : Env) : Prop :=
  0 <= clientWidth E /\ 0 <= clientHeight E.

(** ** Arrays *)

(** [arr.splice(i, 1)]. *)
Definition splice1 {A} (i : nat) (l : list A) : list A := delete i l.

(** [arr.push(v)]. *)
Definition push {A} (v : A) (l : list A) : list A := l ++ [v].

(** One more call of [Math.random], of [performance.now]. *)
Definition count_random (w : World) : World :=
  mkWorld (state w) (keys w) (spawnFastToggle w) (shipSpeedMult w)
    (S (randomCalls w)) (nowCalls w).

Definition count_now (w : World) : World :=
  mkWorld (state w) (keys w) (spawnFastToggle w) (shipSpeedMult w)
    (randomCalls w) (S (nowCalls w)).

(** Reductions of the state setters, of [upd] and of the two counters, and
    nothing else. *)
Ltac setters :=
  cbn [ship bullets asteroids score lastSpawn spawnInterval lastTime gameOver
       _shotCooldown set_ship set_bullets set_asteroids set_score
       set_lastSpawn set_spawnInterval set_lastTime set_gameOver
       set_shotCooldown state keys spawnFastToggle shipSpeedMult randomCalls
       nowCalls upd count_now count_random].

(** The value of the call of [rand(min, max)] that makes the [k]-th call of
    [Math.random]. *)
Definition rand_at (E : Env) (k : nat) (min max : Q) : Q :=
  Math_random E k * (max - min) + min.

(** The body of [rand] (line 79) in the arithmetic the browser uses, IEEE
    binary64 with rounding to nearest: [r] is the value [Math.random()]
    returned. *)
Definition rand_binary64 (r min max : float) : float :=
  (r * (max - min) + min)%float.

(** The largest double below 1. *)
Definition largest_draw : float := (1 - 0x1p-53)%float.

Section Game.

Variable E : Env.

(** [Math.random()] and [performance.now()]: the next value of the stream. *)
Definition random (w : World) : Q * World :=
  (Math_random E (randomCalls w), count_random w).

Definition now (w : World) : Q * World :=
  (performance_now E (nowCalls w), count_now w).

(** [rand(min, max)]. *)
Definition rand (min max : Q) (w : World) : Q * World :=
  let '(r, w) := random w in (r * (max - min) + min, w).

(** [dist] is declared by the script and never called. *)

(** ** [reset] *)
Definition reset (w : World) : World :=
  let cw := clientWidth E in
  let ch := clientHeight E in
  let w := upd (set_ship (Some (Ship.mk (cw / 2) (ch / 2) 0 0
                                  (- Math_PI E / 2) 14 0))) w in
  let w := upd (set_bullets []) w in
  let w := upd (set_asteroids []) w in
  let w := upd (set_score 0%Z) w in
  let '(t, w) := now w in
  let w := upd (set_lastSpawn t) w in
  let w := upd (set_spawnInterval
                  (if spawnFastToggle w then 500 else SPAWN_INTERVAL_BASE)) w in
  upd (set_gameOver false) w.

(** ** [spawnAsteroid]

    [x, y, vx, vy] are declared without a value and assigned by the one
    [if (edge === k)] that holds; the zeros they start from here are never
    read, because [Math.floor(rand(0,4))] is one of 0, 1, 2, 3. *)
Definition spawnAsteroid (w : World) : World :=
  let cw := clientWidth E in
  let ch := clientHeight E in
  let '(e, w) := rand 0 4 w in
  let edge := Qfloor e in
  let p := (0, 0, 0, 0) in
  let '(p, w) :=
    if (edge =? 0)%Z then
      let '(y, w) := rand 0 ch w in
      let '(vx, w) := rand 0.3 1.1 w in
      let '(vy, w) := rand (-0.6) 0.6 w in
      ((-40, y, vx, vy), w)
    else (p, w) in
  let '(p, w) :=
    if (edge =? 1)%Z then
      let '(y, w) := rand 0 ch w in
      let '(vx, w) := rand (-1.1) (-0.3) w in
      let '(vy, w) := rand (-0.6) 0.6 w in
      ((cw + 40, y, vx, vy), w)
    else (p, w) in
  let '(p, w) :=
    if (edge =? 2)%Z then
      let '(x, w) := rand 0 cw w in
      let '(vx, w) := rand (-0.6) 0.6 w in
      let '(vy, w) := rand 0.3 1.1 w in
      ((x, -40, vx, vy), w)
    else (p, w) in
  let '(p, w) :=
    if (edge =? 3)%Z then
      let '(x, w) := rand 0 cw w in
      let '(vx, w) := rand (-0.6) 0.6 w in
      let '(vy, w) := rand (-1.1) (-0.3) w in
      ((x, ch + 40, vx, vy), w)
    else (p, w) in
  let '(x, y, vx, vy) := p in
  let '(r0, w) := rand 18 44 w in
  let r := floorQ r0 in
  let '(rot, w) := rand 0 (Math_PI E * 2) w in
  let '(rotSpeed, w) := rand (-0.02) 0.02 w in
  upd (fun st => set_asteroids
                   (push (Asteroid.mk x y vx vy r rot rotSpeed) (asteroids st))
                   st) w.

(** ** [shoot] *)
Definition shoot (w : World) : option World :=
  s ← ship (state w);
  let speed := 6 in
  let bx := Ship.x s + Math_cos E (Ship.angle s) * (Ship.radius s + 6) in
  let by_ := Ship.y s + Math_sin E (Ship.angle s) * (Ship.radius s + 6) in
  let bvx := Ship.vx s + Math_cos E (Ship.angle s) * speed in
  let bvy := Ship.vy s + Math_sin E (Ship.angle s) * speed in
  Some (upd (fun st => set_bullets
                         (push (Bullet.mk bx by_ bvx bvy 120) (bullets st)) st)
          w).

(** ** [step]: the phases, in the order of the source *)

(** Lines 147-154: rotation and thrust, on the ship object [s]. *)
Definition controls (dt : Q) (w : World) (s : Ship.t) : Ship.t :=
  let s :=
    if key "ArrowLeft" w || key "KeyA" w then
      Ship.mk (Ship.x s) (Ship.y s) (Ship.vx s) (Ship.vy s)
        (Ship.angle s - 0.0035 * dt) (Ship.radius s) (Ship.thrust s)
    else s in
  let s :=
    if key "ArrowRight" w || key "KeyD" w then
      Ship.mk (Ship.x s) (Ship.y s) (Ship.vx s) (Ship.vy s)
        (Ship.angle s + 0.0035 * dt) (Ship.radius s) (Ship.thrust s)
    else s in
  if key "ArrowUp" w || key "KeyW" w then
    let force := 0.0026 * dt * shipSpeedMult w in
    Ship.mk (Ship.x s) (Ship.y s)
      (Ship.vx s + Math_cos E (Ship.angle s) * force)
      (Ship.vy s + Math_sin E (Ship.angle s) * force)
      (Ship.angle s) (Ship.radius s) 1
  else
    Ship.mk (Ship.x s) (Ship.y s) (Ship.vx s) (Ship.vy s)
      (Ship.angle s) (Ship.radius s) 0.

(** [shoot(); state._shotCooldown = performance.now();] *)
Definition shoot_and_stamp (w : World) : option World :=
  w ← shoot w;
  let '(t, w) := now w in
  Some (upd (set_shotCooldown (Some t)) w).

(** Lines 155-160.  [!state._shotCooldown] holds for [undefined] and for 0;
    [performance.now()] is read for the comparison only when it does not. *)
Definition fire (w : World) : option World :=
  if key "Space" w then
    match _shotCooldown (state w) with
    | None => shoot_and_stamp w
    | Some t0 =>
        if Qeq_bool t0 0 then shoot_and_stamp w
        else
          let '(t, w) := now w in
          if Qltb 180 (t - t0) then shoot_and_stamp w else Some w
    end
  else Some w.

(** Line 161: [keys['KeyR'] && state.gameOver]. *)
Definition restart_requested (w : World) : bool :=
  key "KeyR" w && gameOver (state w).

(** Lines 164-166: friction, then integration. *)
Definition physics (dt : Q) (s : Ship.t) : Ship.t :=
  let vx := Ship.vx s * 0.999 in
  let vy := Ship.vy s * 0.999 in
  Ship.mk (Ship.x s + vx * dt) (Ship.y s + vy * dt) vx vy
    (Ship.angle s) (Ship.radius s) (Ship.thrust s).

(** Lines 170-173 for one axis: two [if]s, one after the other. *)
Definition wrap_axis (v lim : Q) : Q :=
  let v := if Qltb v (-50) then lim + 50 else v in
  if Qltb (lim + 50) v then -50 else v.

Definition wrap (s : Ship.t) : Ship.t :=
  Ship.mk (wrap_axis (Ship.x s) (clientWidth E))
    (wrap_axis (Ship.y s) (clientHeight E))
    (Ship.vx s) (Ship.vy s) (Ship.angle s) (Ship.radius s) (Ship.thrust s).

(** Lines 176-182.  [n] is [i + 1]: the loop reads [state.bullets[i]],
    changes that object in place and may splice it out. *)
Definition move_bullet (dt : Q) (b : Bullet.t) : Bullet.t :=
  Bullet.mk (Bullet.x b + Bullet.vx b * dt) (Bullet.y b + Bullet.vy b * dt)
    (Bullet.vx b) (Bullet.vy b) (Bullet.life b - dt).

Fixpoint bullets_loop (dt : Q) (n : nat) (bs : list Bullet.t)
  : option (list Bullet.t) :=
  match n with
  | O => Some bs
  | S i =>
      b ← bs !! i;
      let b := move_bullet dt b in
      let bs := <[i := b]> bs in
      bullets_loop dt i (if Qle_bool (Bullet.life b) 0 then splice1 i bs else bs)
  end.

Definition update_bullets (dt : Q) (w : World) : option World :=
  bs ← bullets_loop dt (length (bullets (state w))) (bullets (state w));
  Some (upd (set_bullets bs) w).

(** Lines 185-192. *)
Definition spawn_tick (w : World) : World :=
  let '(t, w) := now w in
  if Qltb (spawnInterval (state w)) (t - lastSpawn (state w)) then
    let w := spawnAsteroid w in
    let w := upd (set_lastSpawn t) w in
    upd (fun st => set_spawnInterval (Qmax 500 (spawnInterval st * 0.98)) st) w
  else w.

(** Lines 195-204. *)
Definition move_asteroid (dt : Q) (a : Asteroid.t) : Asteroid.t :=
  Asteroid.mk (Asteroid.x a + Asteroid.vx a * dt * 0.9)
    (Asteroid.y a + Asteroid.vy a * dt * 0.9)
    (Asteroid.vx a) (Asteroid.vy a) (Asteroid.radius a)
    (Asteroid.rot a + Asteroid.rotSpeed a * dt) (Asteroid.rotSpeed a).

Definition far_outside (a : Asteroid.t) : bool :=
  Qltb (Asteroid.x a) (-200) || Qltb (clientWidth E + 200) (Asteroid.x a)
  || Qltb (Asteroid.y a) (-200) || Qltb (clientHeight E + 200) (Asteroid.y a).

Fixpoint asteroids_loop (dt : Q) (n : nat) (l : list Asteroid.t)
  : option (list Asteroid.t) :=
  match n with
  | O => Some l
  | S i =>
      a ← l !! i;
      let a := move_asteroid dt a in
      let l := <[i := a]> l in
      asteroids_loop dt i (if far_outside a then splice1 i l else l)
  end.

Definition update_asteroids (dt : Q) (w : World) : option World :=
  l ← asteroids_loop dt (length (asteroids (state w))) (asteroids (state w));
  Some (upd (set_asteroids l) w).

(** Line 211. *)
Definition hits (a : Asteroid.t) (b : Bullet.t) : bool :=
  hypot_lt (Asteroid.x a - Bullet.x b) (Asteroid.y a - Bullet.y b)
    (Asteroid.radius a + 2).

(** Lines 209-235, the search: the bullets are read from the last index down
    and the scan stops ([break]) at the first one that hits.  The result is
    that bullet's index, if any. *)
Fixpoint scan_bullets (a : Asteroid.t) (m : nat) (bs : list Bullet.t)
  : option (option nat) :=
  match m with
  | O => Some None
  | S j =>
      b ← bs !! j;
      if hits a b then Some (Some j) else scan_bullets a j bs
  end.

(** Lines 222-230: one fragment of [a]; the six [rand] calls of the object
    literal are made in the order of its properties. *)
Definition fragment (a : Asteroid.t) (w : World) : World :=
  let nr := Asteroid.radius a * 0.55 in
  let '(jx, w) := rand (-10) 10 w in
  let '(jy, w) := rand (-10) 10 w in
  let '(jvx, w) := rand (-1) 1 w in
  let '(jvy, w) := rand (-1) 1 w in
  let '(rot, w) := rand 0 (Math_PI E * 2) w in
  let '(rotSpeed, w) := rand (-0.04) 0.04 w in
  upd (fun st => set_asteroids
                   (push (Asteroid.mk (Asteroid.x a + jx) (Asteroid.y a + jy)
                            (Asteroid.vx a + jvx) (Asteroid.vy a + jvy)
                            nr rot rotSpeed) (asteroids st)) st) w.

(** Lines 219-232. *)
Definition fragments (a : Asteroid.t) (w : World) : World :=
  if Qltb 26 (Asteroid.radius a) then fragment a (fragment a w) else w.

(** Line 216: the points for destroying [a], [Math.floor(100 - a.radius)]. *)
Definition award (a : Asteroid.t) : Z := Qfloor (100 - Asteroid.radius a).

(** Lines 213-232: what a hit of bullet [j] on asteroid [i] (the object [a])
    does. *)
Definition resolve_hit (i j : nat) (a : Asteroid.t) (w : World) : World :=
  let w := upd (fun st => set_bullets (splice1 j (bullets st)) st) w in
  let w := upd (fun st => set_asteroids (splice1 i (asteroids st)) st) w in
  let w := upd (fun st => set_score (score st + award a)%Z st) w in
  fragments a w.

(** Lines 207-236; [n] is [i + 1]. *)
Fixpoint collide_loop (n : nat) (w : World) : option World :=
  match n with
  | O => Some w
  | S i =>
      a ← asteroids (state w) !! i;
      r ← scan_bullets a (length (bullets (state w))) (bullets (state w));
      match r with
      | Some j => collide_loop i (resolve_hit i j a w)
      | None => collide_loop i w
      end
  end.

Definition collide_bullets (w : World) : option World :=
  collide_loop (length (asteroids (state w))) w.

(** Line 241, against the ship object [s] of this call. *)
Definition touches (s : Ship.t) (a : Asteroid.t) : bool :=
  hypot_lt (Asteroid.x a - Ship.x s) (Asteroid.y a - Ship.y s)
    (Asteroid.radius a + Ship.radius s - 4).

(** Lines 239-244; [n] is [i + 1]. *)
Fixpoint ship_loop (s : Ship.t) (n : nat) (w : World) : option World :=
  match n with
  | O => Some w
  | S i =>
      a ← asteroids (state w) !! i;
      ship_loop s i (if touches s a then upd (set_gameOver true) w else w)
  end.

Definition collide_ship (s : Ship.t) (w : World) : option World :=
  ship_loop s (length (asteroids (state w))) w.

(** Everything of [step] after line 161.  [s] is the object that [step]
    bound at its first line.  It is [state.ship] itself, so what is done to
    it shows in the state, unless [reset] has just put a new ship object in
    [state.ship] ([fresh]): then [s] is the old object, the state does not see
    it move, but line 241 still tests the asteroids against it. *)
Definition after_restart_check (dt : Q) (fresh : bool) (s : Ship.t) (w : World)
  : option World :=
  let s := wrap (physics dt s) in
  let w := if fresh then w else upd (set_ship (Some s)) w in
  w ← update_bullets dt w;
  let w := spawn_tick w in
  w ← update_asteroids dt w;
  w ← collide_bullets w;
  collide_ship s w.

(** [step(dt)]. *)
Definition step (dt : Q) (w : World) : option World :=
  match ship (state w) with
  | None => Some w
  | Some s =>
      let s := controls dt w s in
      let w := upd (set_ship (Some s)) w in
      w ← fire w;
      if restart_requested w
      then after_restart_check dt true s (reset w)
      else after_restart_check dt false s w
  end.

(** ** The driver: [loop(now)]

    [render] and [requestAnimationFrame] do not touch the state; the
    argument is the time stamp the browser passes to the callback. *)
Definition loop_dt (t : Q) (w : World) : Q := Qmin 40 (t - lastTime (state w)).

Definition loop (t : Q) (w : World) : option World :=
  let dt := loop_dt t w in
  let w := upd (set_lastTime t) w in
  if gameOver (state w) then Some w else step dt w.

(** [render] (lines 300-340) writes nothing of the state.  It reads the
    asteroids and the bullets, which are arrays of objects, and calls
    [drawShip(state.ship)] (line 329), whose first read, [ship.x], throws
    when [state.ship] is [null]. *)
Definition render (w : World) : option World :=
  _ ← ship (state w); Some w.

(** The body of [loop] with its call of [render] (lines 343-346): what [loop]
    makes of the state, unless [render] throws. *)
Definition frame (t : Q) (w : World) : option World :=
  w ← loop t w; render w.

End Game.

(** ** The key handlers

    Of the [keydown] handler, what reaches the simulation: the [keys] entry,
    the fast-spawn toggle (F) and the ship speed multiplier (S).  The D key
    only changes the rendering resolution. *)
Definition keydown (code : string) (w : World) : World :=
  let w := mkWorld (state w) (<[code := true]> (keys w)) (spawnFastToggle w)
             (shipSpeedMult w) (randomCalls w) (nowCalls w) in
  let w :=
    if String.eqb code "KeyF" then
      let f := negb (spawnFastToggle w) in
      mkWorld (set_spawnInterval (if f then 500 else SPAWN_INTERVAL_BASE)
                 (state w))
        (keys w) f (shipSpeedMult w) (randomCalls w) (nowCalls w)
    else w in
  if String.eqb code "KeyS" then
    mkWorld (state w) (keys w) (spawnFastToggle w)
      (if Qeq_bool (shipSpeedMult w) 1 then 2 else 1)
      (randomCalls w) (nowCalls w)
  else w.

Definition keyup (code : string) (w : World) : World :=
  mkWorld (state w) (<[code := false]> (keys w)) (spawnFastToggle w)
    (shipSpeedMult w) (randomCalls w) (nowCalls w).

(** ** The [state] literal (line 83), [reset()] (line 113) and the four
    initial asteroids (line 352)

    [boot] is what these three lines make, taken by themselves.  The
    statements before them are not part of it, and as shipped the script does
    not get past line 20 (see the head of this file): [boot] only serves to
    build sample worlds. *)
Definition initial (E : Env) : World :=
  mkWorld (mkState None [] [] 0%Z 0 SPAWN_INTERVAL_BASE (performance_now E 0)
             false None)
    ∅ false 1 0 1.

Definition boot (E : Env) : World :=
  spawnAsteroid E (spawnAsteroid E (spawnAsteroid E (spawnAsteroid E
    (reset E (initial E))))).

(** ** The worlds of a game

    A game starts with a call of [reset], on whatever world it is called
    (line 113, line 161).  From there on the script calls [spawnAsteroid]
    (line 352), the key handlers and [loop], which calls [step]; direct calls
    of [step] are included.  Each call reads the canvas size, the clock and
    the draws afresh, so each call has an environment of its own (a canvas
    resized between two calls is two environments); the draws are taken from
    0 to 1, as [rand] sees them after rounding. *)
Inductive played : World -> Prop :=
  | played_reset E w : played (reset E w)
  | played_spawn E w :
      random_upto_one E -> played w -> played (spawnAsteroid E w)
  | played_keydown code w : played w -> played (keydown code w)
  | played_keyup code w : played w -> played (keyup code w)
  | played_step E dt w w' :
      random_upto_one E -> played w -> step E dt w = Some w' -> played w'
  | played_loop E t w w' :
      random_upto_one E -> played w -> loop E t w = Some w' -> played w'.

(** ** A sample environment and sample worlds, to run the model

    The draws are all 1/2, the clock advances 40 ms per reading, the canvas
    is a small one, 200 by 100 (the games below are short), and [Math.cos],
    [Math.sin] have their values at the heading of a ship that was never
    rotated, -PI/2. *)
Definition sampleEnv : Env :=
  mkEnv (fun _ => 0.5) (fun n => 40 * inject_Z (Z.of_nat n))
    (fun _ => 0) (fun _ => -1) 3.14159 200 100.

(** ** Runs of the program *)

Inductive Event : Type :=
  | KeyDown (code : string)
  | KeyUp (code : string)
  | Frame (t : Q).

(** What a sequence of key events and animation frames does to the world. *)
Fixpoint run (E : Env) (evs : list Event) (w : World) : option World :=
  match evs with
  | [] => Some w
  | KeyDown code :: evs => run E evs (keydown code w)
  | KeyUp code :: evs => run E evs (keyup code w)
  | Frame t :: evs => w ← loop E t w; run E evs w
  end.

(** The input snapshot a caller of [step] supplies: the [keys] object alone. *)
Definition with_keys (ks : gmap string bool) (w : World) : World :=
  mkWorld (state w) ks (spawnFastToggle w) (shipSpeedMult w)
    (randomCalls w) (nowCalls w).

(** Sequences of [step] calls, each with its own [dt], its own input
    snapshot and its own environment, of which [P] holds, in which line 161
    never calls [reset]. *)
Inductive steps_no_reset (P : Env -> Prop) : World -> World -> Prop :=
  | snr_done w : steps_no_reset P w w
  | snr_keys ks w w' :
      steps_no_reset P (with_keys ks w) w' -> steps_no_reset P w w'
  | snr_step E dt w w1 w' :
      P E ->
      restart_requested w = false ->
      step E dt w = Some w1 ->
      steps_no_reset P w1 w' ->
      steps_no_reset P w w'.

(** No assumption on the environment. *)
Definition any_env (E : Env) : Prop := True.

(** ** Sample worlds *)

(** Two frames after [boot], 40 ms apart like the readings of the sample
    clock: the asteroids that entered from the top edge have reached the
    ship. *)
Definition two_frames : list Event := [Frame 80; Frame 120].

Definition w_over : World :=
  default (boot sampleEnv) (run sampleEnv two_frames (boot sampleEnv)).

(** The same game-over world a moment later: the player holds the up arrow,
    or the R key. *)
Definition w_over_thrust : World := keydown "ArrowUp" w_over.

Definition w_over_restart : World := keydown "KeyR" w_over.

(** The world [boot] makes, with the up arrow held. *)
Definition w_thrust : World := keydown "ArrowUp" (boot sampleEnv).

(** The world [boot] makes, with the space bar held for one frame. *)
Definition w_shot : World :=
  default (boot sampleEnv)
    (run sampleEnv [KeyDown "Space"; Frame 80] (boot sampleEnv)).

(** ** The update loops, as list functions

    What the two update loops compute, written without indices; they are
    compared with the loops of the source below. *)
Definition alive (b : Bullet.t) : bool := negb (Qle_bool (Bullet.life b) 0).

Definition bullets_updated (dt : Q) (bs : list Bullet.t) : list Bullet.t :=
  List.filter alive (move_bullet dt <$> bs).

Definition asteroids_updated (E : Env) (dt : Q) (l : list Asteroid.t)
  : list Asteroid.t :=
  List.filter (fun a => negb (far_outside E a)) (move_asteroid dt <$> l).

(** The world after lines 175-182, after lines 194-204. *)
Definition bullets_moved (dt : Q) (w : World) : World :=
  upd (set_bullets (bullets_updated dt (bullets (state w)))) w.

Definition asteroids_moved (E : Env) (dt : Q) (w : World) : World :=
  upd (set_asteroids (asteroids_updated E dt (asteroids (state w)))) w.

(** Line 186: the test of the spawn tick, given the reading of the clock that
    line 186 makes. *)
Definition spawn_due (E : Env) (w : World) : bool :=
  Qltb (spawnInterval (state w))
    (performance_now E (nowCalls w) - lastSpawn (state w)).

(** The world in which the collision pass of line 206 starts, given the world
    [w] in which line 175 starts. *)
Definition before_collisions (E : Env) (dt : Q) (w : World) : World :=
  asteroids_moved E dt (spawn_tick E (bullets_moved dt w)).

(** The world in which line 175 starts in a call of [step] on the world [w]
    with the ship [s], where [wf] is the world the fire lines left: the one
    [reset] makes when a restart is requested, and otherwise [wf] with the
    ship moved and wrapped. *)
Definition entering_updates (E : Env) (dt : Q) (s : Ship.t) (w wf : World)
  : World :=
  if restart_requested w then reset E wf
  else upd (set_ship (Some (wrap E (physics dt (controls E dt w s))))) wf.

(** ** Vocabulary for the collision pass *)

(** [c] is a fragment made from [a] at lines 222-230, with six consecutive
    draws. *)
Definition fragment_of (E : Env) (a c : Asteroid.t) : Prop :=
  exists k : nat,
    c = Asteroid.mk
          (Asteroid.x a + rand_at E k (-10) 10)
          (Asteroid.y a + rand_at E (k + 1) (-10) 10)
          (Asteroid.vx a + rand_at E (k + 2) (-1) 1)
          (Asteroid.vy a + rand_at E (k + 3) (-1) 1)
          (Asteroid.radius a * 0.55)
          (rand_at E (k + 4) 0 (Math_PI E * 2))
          (rand_at E (k + 5) (-0.04) 0.04).

(** The points for a list of destroyed asteroids. *)
Definition total_award (l : list Asteroid.t) : Z :=
  foldr (fun a n => (award a + n)%Z) 0%Z l.

(** The fields of the world that only the key handlers write. *)
Definition same_globals (w w' : World) : Prop :=
  keys w' = keys w
  /\ spawnFastToggle w' = spawnFastToggle w
  /\ shipSpeedMult w' = shipSpeedMult w.

(** Line 219: the asteroids that break into fragments. *)
Definition splits (a : Asteroid.t) : bool := Qltb 26 (Asteroid.radius a).

(** ** The collision pass, as a list function

    What lines 206-236 decide, written without indices, to be compared with
    [collide_loop].  The pass takes the asteroids from the last one down, so
    the asteroids after [a] are dealt with before [a], with the bullets they
    leave; [a] is shot down by the last bullet of the array that is over it,
    if there is one, and that bullet is removed. *)
Fixpoint last_hit (a : Asteroid.t) (bs : list Bullet.t) : option nat :=
  match bs with
  | [] => None
  | b :: bs' =>
      match last_hit a bs' with
      | Some j => Some (S j)
      | None => if hits a b then Some 0%nat else None
      end
  end.

Record Collision : Type := mkCollision
  { survivors : list Asteroid.t;
    shot_down : list Asteroid.t;
    bullets_left : list Bullet.t }.

Fixpoint collide_fn (l : list Asteroid.t) (bs : list Bullet.t) : Collision :=
  match l with
  | [] => mkCollision [] [] bs
  | a :: l' =>
      let c := collide_fn l' bs in
      match last_hit a (bullets_left c) with
      | Some j =>
          mkCollision (survivors c) (a :: shot_down c)
            (delete j (bullets_left c))
      | None => mkCollision (a :: survivors c) (shot_down c) (bullets_left c)
      end
  end.

(** [kids] are the fragments of the asteroids [ds], in that order: two
    fragments for each asteroid that splits, none for the others. *)
Fixpoint fragments_made (E : Env) (ds kids : list Asteroid.t) : Prop :=
  match ds with
  | [] => kids = []
  | a :: ds' =>
      if splits a then
        exists (c1 c2 : Asteroid.t) (rest : list Asteroid.t),
          kids = c1 :: c2 :: rest
          /\ fragment_of E a c1 /\ fragment_of E a c2
          /\ fragments_made E ds' rest
      else fragments_made E ds' kids
  end.

(** The collision of a call of [step] on the world [w] with the ship [s],
    where [wf] is the world the fire lines left. *)
Definition step_collision (E : Env) (dt : Q) (s : Ship.t) (w wf : World)
  : Collision :=
  let w3 := before_collisions E dt (entering_updates E dt s w wf) in
  collide_fn (asteroids (state w3)) (bullets (state w3)).

(** What lines 175-244 make of the world [w] (in which the ship has already
    moved) when they run to the end in [w']: [spawned] is the asteroid of the
    spawn tick, if it fired; of the asteroids that were moved and not culled,
    [surv] are left in place and [destroyed] were hit, each by a bullet of its
    own; [kids] are the fragments.  [s] is the ship object of line 241. *)
Definition tick_outcome (E : Env) (dt : Q) (s : Ship.t) (w w' : World) : Prop :=
  exists (spawned surv destroyed kids : list Asteroid.t),
    (spawned = []
     /\ spawnInterval (state w') = spawnInterval (state w)
     /\ lastSpawn (state w') = lastSpawn (state w)
     \/ exists (a : Asteroid.t) (k : nat),
          spawned = [a]
          /\ Asteroid.radius a = floorQ (Math_random E k * (44 - 18) + 18)
          /\ spawnInterval (state w')
             = Qmax 500 (spawnInterval (state w) * 0.98)
          /\ lastSpawn (state w') = performance_now E (nowCalls w))
    /\ surv `sublist_of` asteroids_updated E dt (asteroids (state w) ++ spawned)
    /\ surv ++ destroyed
       ≡ₚ asteroids_updated E dt (asteroids (state w) ++ spawned)
    /\ asteroids (state w') = surv ++ kids
    /\ Forall (fun c => exists a, a ∈ destroyed /\ splits a = true
                                 /\ fragment_of E a c) kids
    /\ length kids = (2 * length (List.filter splits destroyed))%nat
    /\ bullets (state w') `sublist_of` bullets_updated dt (bullets (state w))
    /\ (length (bullets (state w')) + length destroyed
        = length (bullets_updated dt (bullets (state w))))%nat
    /\ score (state w') = (score (state w) + total_award destroyed)%Z
    /\ gameOver (state w')
       = existsb (touches s) (asteroids (state w')) || gameOver (state w)
    /\ ship (state w') = ship (state w)
    /\ lastTime (state w') = lastTime (state w)
    /\ _shotCooldown (state w') = _shotCooldown (state w)
    /\ same_globals w w'.

(** A slow machine: the same environment with 1.5 s between two readings of
    the clock, so that the spawn tick of the first [step] fires. *)
Definition slowEnv : Env :=
  mkEnv (fun _ => 0.5) (fun n => 1500 * inject_Z (Z.of_nat n))
    (fun _ => 0) (fun _ => -1) 3.14159 200 100.

Definition w_slow : World :=
  default (boot slowEnv) (step slowEnv 40 (boot slowEnv)).

(** The space bar is held from the start: the bullet fired in the next
    [step] meets the asteroids coming down from the top edge.  [w_fight'] is
    the world after that [step]. *)
Definition w_fight : World := keydown "Space" (boot sampleEnv).

Definition w_fight' : World := default w_fight (step sampleEnv 8 w_fight).

(** [c] has 0.55 times the radius of [a], a position within 10 units of its
    position on each axis and a velocity within 1 unit of its velocity on each
    axis. *)
Definition jittered_fragment (a c : Asteroid.t) : Prop :=
  Asteroid.radius c = Asteroid.radius a * 0.55
  /\ (-10 <= Asteroid.x c - Asteroid.x a /\ Asteroid.x c - Asteroid.x a <= 10)
  /\ (-10 <= Asteroid.y c - Asteroid.y a /\ Asteroid.y c - Asteroid.y a <= 10)
  /\ (-1 <= Asteroid.vx c - Asteroid.vx a
      /\ Asteroid.vx c - Asteroid.vx a <= 1)
  /\ (-1 <= Asteroid.vy c - Asteroid.vy a
      /\ Asteroid.vy c - Asteroid.vy a <= 1).

(** Two worlds with one bullet on top of one asteroid, of radius 40 and of
    radius 20. *)
Definition w_big : World :=
  mkWorld
    (mkState (Some (Ship.mk 400 300 0 0 0 14 0))
       [Bullet.mk 100 100 0 (-6) 80]
       [Asteroid.mk 100 100 0.5 0.5 40 0 0.01]
       0%Z 0 1200 0 false None)
    ∅ false 1 0 0.

Definition w_small : World :=
  mkWorld
    (mkState (Some (Ship.mk 400 300 0 0 0 14 0))
       [Bullet.mk 100 100 0 (-6) 80]
       [Asteroid.mk 100 100 0.5 0.5 20 0 0.01]
       0%Z 0 1200 0 false None)
    ∅ false 1 0 0.

(** A ship 5 units inside the left margin, drifting left. *)
Definition w_edge : World :=
  mkWorld
    (mkState (Some (Ship.mk (-45) 50 (-1) 0 0 14 0)) [] [] 0%Z 0 1200 0 false
       None)
    ∅ false 1 0 0.

(** ** Vocabulary for the spawner and the margins *)

(** [a] sits 40 units outside one edge of the canvas, somewhere along that
    edge, and its velocity points into the canvas: between 0.3 and 1.1 across
    the edge, within 0.6 along it. *)
Definition enters_from_edge (E : Env) (a : Asteroid.t) : Prop :=
  (Asteroid.x a = -40
   /\ (0 <= Asteroid.y a /\ Asteroid.y a <= clientHeight E)
   /\ (0.3 <= Asteroid.vx a /\ Asteroid.vx a <= 1.1)
   /\ (-0.6 <= Asteroid.vy a /\ Asteroid.vy a <= 0.6))
  \/ (Asteroid.x a = clientWidth E + 40
      /\ (0 <= Asteroid.y a /\ Asteroid.y a <= clientHeight E)
      /\ (-1.1 <= Asteroid.vx a /\ Asteroid.vx a <= -0.3)
      /\ (-0.6 <= Asteroid.vy a /\ Asteroid.vy a <= 0.6))
  \/ (Asteroid.y a = -40
      /\ (0 <= Asteroid.x a /\ Asteroid.x a <= clientWidth E)
      /\ (-0.6 <= Asteroid.vx a /\ Asteroid.vx a <= 0.6)
      /\ (0.3 <= Asteroid.vy a /\ Asteroid.vy a <= 1.1))
  \/ (Asteroid.y a = clientHeight E + 40
      /\ (0 <= Asteroid.x a /\ Asteroid.x a <= clientWidth E)
      /\ (-0.6 <= Asteroid.vx a /\ Asteroid.vx a <= 0.6)
      /\ (-1.1 <= Asteroid.vy a /\ Asteroid.vy a <= -0.3)).

(** [a] is no further than [m] units outside the canvas on either axis. *)
Definition in_margin (E : Env) (m : Q) (a : Asteroid.t) : Prop :=
  (- m <= Asteroid.x a /\ Asteroid.x a <= clientWidth E + m)
  /\ (- m <= Asteroid.y a /\ Asteroid.y a <= clientHeight E + m).

(** The radii the game produces: above 14.3 (a fragment of the smallest
    asteroid that splits) and at most 44 (a spawned asteroid whose
    [rand(18, 44)] returned 44). *)
Definition game_radius (r : Q) : Prop := 14.3 < r /\ r <= 44.

(** The ship [reset] makes. *)
Definition fresh_ship (E : Env) : Ship.t :=
  Ship.mk (clientWidth E / 2) (clientHeight E / 2) 0 0 (- Math_PI E / 2) 14 0.

(** The bullet [shoot] makes for the ship [s]. *)
Definition bullet_of (E : Env) (s : Ship.t) : Bullet.t :=
  Bullet.mk
    (Ship.x s + Math_cos E (Ship.angle s) * (Ship.radius s + 6))
    (Ship.y s + Math_sin E (Ship.angle s) * (Ship.radius s + 6))
    (Ship.vx s + Math_cos E (Ship.angle s) * 6)
    (Ship.vy s + Math_sin E (Ship.angle s) * 6)
    120.

(** Line 156: whether a shot may be fired, given the reading of the clock
    that line 156 would make. *)
Definition cooled_down (E : Env) (w : World) : bool :=
  match _shotCooldown (state w) with
  | None => true
  | Some t0 =>
      Qeq_bool t0 0 || Qltb 180 (performance_now E (nowCalls w) - t0)
  end.

(** Two consecutive readings of the clock are never more than 500 ms
    apart. *)
Definition clock_quiet (E : Env) : Prop :=
  forall n : nat, performance_now E (S n) - performance_now E n <= 500.

(** ** Vocabulary for the ship and for the worlds of a game *)

(** [Math.cos] and [Math.sin] return numbers from -1 to 1. *)
Definition trig_bounded (E : Env) : Prop :=
  forall a : Q,
    (-1 <= Math_cos E a /\ Math_cos E a <= 1)
    /\ (-1 <= Math_sin E a /\ Math_sin E a <= 1).

(** The speed, on each axis, at which friction takes away in a call what the
    strongest thrust (40 ms, multiplier 2) adds: 0.999 * (v + 0.208) = v. *)
Definition speed_limit : Q := 207.792.

Definition within_speed_limit (s : Ship.t) : Prop :=
  (- speed_limit <= Ship.vx s /\ Ship.vx s <= speed_limit)
  /\ (- speed_limit <= Ship.vy s /\ Ship.vy s <= speed_limit).

(** There is a ship; no bullet has expired; the radii are those of the game;
    the score is not negative; the spawn interval is 500 or more. *)
Definition well_formed (w : World) : Prop :=
  (exists s : Ship.t, ship (state w) = Some s)
  /\ Forall (fun b => 0 < Bullet.life b) (bullets (state w))
  /\ Forall (fun a => game_radius (Asteroid.radius a)) (asteroids (state w))
  /\ (0 <= score (state w))%Z
  /\ 500 <= spawnInterval (state w).

(** ** More sample worlds *)

(** An environment whose fifth draw, the one [spawnAsteroid] uses for the
    radius when no draw was made before, acts as 1; the others are 1/2. *)
Definition topEnv : Env :=
  mkEnv (fun n => if (n =? 4)%nat then 1 else 0.5)
    (fun n => 40 * inject_Z (Z.of_nat n))
    (fun _ => 0) (fun _ => -1) 3.14159 200 100.

Definition w_top : World := spawnAsteroid topEnv (reset topEnv (initial topEnv)).

(** The world [w_slow], in which the spawn interval has decayed to 1176,
    after the F key was pressed, released and pressed again. *)
Definition w_slow_FF : World :=
  keydown "KeyF" (keyup "KeyF" (keydown "KeyF" w_slow)).

(** A world without a ship, as the [state] literal has it, in a game that is
    not over. *)
Definition w_no_ship : World :=
  mkWorld (mkState None [] [] 0%Z 0 1200 0 false None) ∅ false 1 0 0.

(** * Properties *)

(** ** Comparisons *)

Lemma Qltb_lt (x y : Q) : Qltb x y = true <-> x < y.
Proof.
  unfold Qltb. rewrite negb_true_iff, <- not_true_iff_false, Qle_bool_iff.
  split; [apply Qnot_le_lt | apply Qlt_not_le].
Qed.

Lemma Qltb_ge (x y : Q) : Qltb x y = false <-> y <= x.
Proof.
  unfold Qltb. rewrite negb_false_iff. apply Qle_bool_iff.
Qed.

Lemma Qmax_500_ge (x : Q) : 500 <= Qmax 500 x.
Proof. apply Q.le_max_l. Qed.

Lemma Qmax_500_decay (x : Q) : 500 <= x -> Qmax 500 (x * 0.98) <= x.
Proof.
  intros Hx. apply Q.max_lub; [exact Hx | lra].
Qed.

Lemma Qmin_40_le (x : Q) : Qmin 40 x <= 40.
Proof. apply Q.le_min_l. Qed.

(** ** [reset] *)

(** C8, as amended.  [reset] puts a new ship at the centre of the canvas (at
    rest, heading -PI/2, radius 14, no thrust), empties the bullets and the
    asteroids, sets the score to 0, the last-spawn time to the current time,
    the spawn interval to 500 when the fast-spawn toggle is on and to the base
    1200 otherwise, and clears the game-over flag.  It leaves the time of the
    last shot and [lastTime] as they were. *)
Theorem reset_postconditions (E : Env) (w : World) :
  let w' := reset E w in
  ship (state w') =
    Some (Ship.mk (clientWidth E / 2) (clientHeight E / 2) 0 0
            (- Math_PI E / 2) 14 0)
  /\ bullets (state w') = []
  /\ asteroids (state w') = []
  /\ score (state w') = 0%Z
  /\ lastSpawn (state w') = performance_now E (nowCalls w)
  /\ spawnInterval (state w') =
       (if spawnFastToggle w then 500 else SPAWN_INTERVAL_BASE)
  /\ gameOver (state w') = false
  /\ _shotCooldown (state w') = _shotCooldown (state w)
  /\ lastTime (state w') = lastTime (state w)
  /\ keys w' = keys w
  /\ spawnFastToggle w' = spawnFastToggle w
  /\ shipSpeedMult w' = shipSpeedMult w.
Proof.
  repeat split; reflexivity.
Qed.

(** C8, as stated, fails: the time of the last shot is not reinitialized.
    After loading, one frame with the space bar held stamps the shot at 80;
    [reset] keeps that stamp, while the freshly loaded state has none. *)
Lemma reset_keeps_shot_timestamp :
  _shotCooldown (state w_shot) = Some 80
  /\ _shotCooldown (state (reset sampleEnv w_shot)) = Some 80
  /\ _shotCooldown (state (initial sampleEnv)) = None.
Proof. vm_compute. repeat split; reflexivity. Qed.

(** ** The driver's [dt] *)

(** C3, as amended.  The [dt] that [loop] hands to [step] is
    [Math.min(40, now - lastTime)]: it is never greater than 40, and it is
    non-negative exactly when [now] is not before [lastTime]; there is no
    lower clamp. *)
Theorem loop_dt_min_40 (E : Env) (t : Q) (w : World) :
  loop E t w =
    (if gameOver (state w) then Some (upd (set_lastTime t) w)
     else step E (loop_dt t w) (upd (set_lastTime t) w))
  /\ loop_dt t w = Qmin 40 (t - lastTime (state w))
  /\ loop_dt t w <= 40
  /\ (0 <= loop_dt t w <-> lastTime (state w) <= t).
Proof.
  split; [reflexivity|]. split; [reflexivity|]. split; [apply Qmin_40_le|].
  unfold loop_dt. split; intros H.
  - destruct (Qlt_le_dec t (lastTime (state w))) as [Hlt|Hle]; [|exact Hle].
    exfalso. pose proof (Q.le_min_r 40 (t - lastTime (state w))). lra.
  - apply Q.min_glb; lra.
Qed.

(** C3, as stated, fails: a frame whose time stamp is 10 ms before
    [lastTime] passes [dt = -10], which [clamp(now - lastTime, 0, 40)] would
    have made 0. *)
Lemma loop_dt_negative :
  lastTime (state w_shot) = 80
  /\ loop_dt 70 w_shot == -10
  /\ ~ 0 <= loop_dt 70 w_shot
  /\ ~ loop_dt 70 w_shot == Qmax 0 (Qmin 40 (70 - lastTime (state w_shot))).
Proof.
  split; [vm_compute; reflexivity|]. split; [vm_compute; reflexivity|].
  split; intros H; vm_compute in H; [apply H; reflexivity | discriminate H].
Qed.

(** ** The update loops *)

Lemma filter_snoc {A} (f : A -> bool) (l : list A) (x : A) :
  List.filter f (l ++ [x]) = List.filter f l ++ (if f x then [x] else []).
Proof. rewrite List.filter_app. reflexivity. Qed.

Lemma insert_middle {A} (l1 l2 : list A) (x y : A) :
  <[length l1 := y]> (l1 ++ x :: l2) = l1 ++ y :: l2.
Proof.
  replace (length l1) with (length l1 + 0)%nat by lia.
  rewrite insert_app_r. reflexivity.
Qed.

Lemma Forall_sublist {A} (P : A -> Prop) (l k : list A) :
  l `sublist_of` k -> Forall P k -> Forall P l.
Proof.
  induction 1 as [|x l k _ IH|x l k _ IH]; intros Hk.
  - constructor.
  - inversion Hk; subst. constructor; auto.
  - inversion Hk; subst. auto.
Qed.

(** The bullet loop never reads past the end of the array, and it computes
    [bullets_updated] on the part of the array it has gone through. *)
Lemma bullets_loop_split (dt : Q) (pre post : list Bullet.t) :
  bullets_loop dt (length pre) (pre ++ post)
  = Some (bullets_updated dt pre ++ post).
Proof.
  revert post. induction pre as [|b pre IH] using rev_ind; intros post.
  - reflexivity.
  - rewrite length_app, Nat.add_comm. simpl.
    rewrite <- app_assoc. simpl.
    rewrite list_lookup_middle by reflexivity. simpl.
    rewrite insert_middle. unfold splice1. rewrite delete_middle.
    unfold bullets_updated. rewrite fmap_app. simpl (_ <$> [b]).
    rewrite filter_snoc. unfold alive at 2. simpl.
    destruct (Qle_bool (Bullet.life b - dt) 0); simpl.
    + rewrite IH, app_nil_r. reflexivity.
    + rewrite IH, <- app_assoc. reflexivity.
Qed.

Lemma update_bullets_spec (dt : Q) (w : World) :
  update_bullets dt w
  = Some (upd (set_bullets (bullets_updated dt (bullets (state w)))) w).
Proof.
  unfold update_bullets.
  pose proof (bullets_loop_split dt (bullets (state w)) []) as H.
  rewrite !app_nil_r in H. rewrite H. reflexivity.
Qed.

Lemma asteroids_loop_split (E : Env) (dt : Q) (pre post : list Asteroid.t) :
  asteroids_loop E dt (length pre) (pre ++ post)
  = Some (asteroids_updated E dt pre ++ post).
Proof.
  revert post. induction pre as [|a pre IH] using rev_ind; intros post.
  - reflexivity.
  - rewrite length_app, Nat.add_comm. simpl.
    rewrite <- app_assoc. simpl.
    rewrite list_lookup_middle by reflexivity. simpl.
    rewrite insert_middle. unfold splice1. rewrite delete_middle.
    unfold asteroids_updated. rewrite fmap_app. simpl (_ <$> [a]).
    rewrite filter_snoc.
    destruct (far_outside E (move_asteroid dt a)); simpl.
    + rewrite IH, app_nil_r. reflexivity.
    + rewrite IH, <- app_assoc. reflexivity.
Qed.

Lemma update_asteroids_spec (E : Env) (dt : Q) (w : World) :
  update_asteroids E dt w
  = Some (upd (set_asteroids (asteroids_updated E dt (asteroids (state w)))) w).
Proof.
  unfold update_asteroids.
  pose proof (asteroids_loop_split E dt (asteroids (state w)) []) as H.
  rewrite !app_nil_r in H. rewrite H. reflexivity.
Qed.

(** ** The scan of line 209 and the ship test of line 239 *)

(** The scan never reads past the end of the bullets; it returns the last
    bullet that hits, if there is one. *)
Lemma scan_bullets_spec (a : Asteroid.t) (m : nat) (bs : list Bullet.t) :
  (m <= length bs)%nat ->
  exists r, scan_bullets a m bs = Some r /\
    match r with
    | Some j =>
        (j < m)%nat /\ (exists b, bs !! j = Some b /\ hits a b = true)
        /\ forall j' b', (j < j' < m)%nat -> bs !! j' = Some b' ->
                         hits a b' = false
    | None => forall j b, (j < m)%nat -> bs !! j = Some b -> hits a b = false
    end.
Proof.
  induction m as [|j IH]; intros Hm.
  - exists None. split; [reflexivity|]. intros; lia.
  - simpl. destruct (lookup_lt_is_Some_2 bs j) as [b Hb]; [lia|].
    rewrite Hb. simpl. destruct (hits a b) eqn:Hh.
    + exists (Some j). split; [reflexivity|]. split; [lia|].
      split; [eauto|]. intros; lia.
    + destruct IH as [r [Hr Hspec]]; [lia|]. exists r. split; [exact Hr|].
      destruct r as [j0|].
      * destruct Hspec as (Hlt & Hhit & Hlater). split; [lia|].
        split; [exact Hhit|]. intros j' b' Hj' Hb'.
        destruct (decide (j' = j)) as [->|Hne].
        -- congruence.
        -- apply (Hlater j' b'); [lia | exact Hb'].
      * intros j' b' Hj' Hb'.
        destruct (decide (j' = j)) as [->|Hne].
        -- congruence.
        -- apply (Hspec j' b'); [lia | exact Hb'].
Qed.

(** The ship test never reads past the end of the asteroids, and all it can
    do is to set the game-over flag. *)
Lemma ship_loop_spec (s : Ship.t) (n : nat) (w : World) :
  (n <= length (asteroids (state w)))%nat ->
  ship_loop s n w
  = Some (if existsb (touches s) (take n (asteroids (state w)))
          then upd (set_gameOver true) w else w).
Proof.
  revert w. induction n as [|i IH]; intros w Hn.
  - reflexivity.
  - simpl ship_loop.
    destruct (lookup_lt_is_Some_2 (asteroids (state w)) i) as [a Ha]; [lia|].
    rewrite Ha. simpl.
    rewrite (take_S_r _ _ _ Ha), existsb_app. simpl. rewrite orb_false_r.
    destruct (touches s a).
    + rewrite IH by (simpl; lia). rewrite orb_true_r. simpl.
      destruct (existsb _ _); reflexivity.
    + rewrite IH by lia. rewrite orb_false_r. reflexivity.
Qed.

Lemma collide_ship_spec (s : Ship.t) (w : World) :
  collide_ship s w
  = Some (if existsb (touches s) (asteroids (state w))
          then upd (set_gameOver true) w else w).
Proof.
  unfold collide_ship. rewrite ship_loop_spec by lia.
  rewrite firstn_all. reflexivity.
Qed.

(** ** [spawnAsteroid] and the spawn tick *)

Lemma floorQ_le (x : Q) : floorQ x <= x.
Proof. apply Qfloor_le. Qed.

Lemma floorQ_lt_bound (x : Q) (b : Z) : x < inject_Z b -> floorQ x <= inject_Z (b - 1).
Proof.
  intros Hx. unfold floorQ. rewrite <- Zle_Qle.
  assert (Qfloor x < b)%Z; [|lia].
  rewrite Zlt_Qlt. pose proof (Qfloor_le x). lra.
Qed.

Lemma floorQ_ge_bound (x : Q) (b : Z) : inject_Z b <= x -> inject_Z b <= floorQ x.
Proof.
  intros Hx. unfold floorQ. rewrite <- Zle_Qle.
  rewrite <- (Qfloor_Z b). apply Qfloor_resp_le. exact Hx.
Qed.

(** [Math.floor(rand(18,44))] is an integer from 18 to 44, for a draw from 0
    to 1. *)
Lemma spawn_radius_range (r : Q) :
  0 <= r -> r <= 1 ->
  18 <= floorQ (r * (44 - 18) + 18) /\ floorQ (r * (44 - 18) + 18) <= 44.
Proof.
  intros H0 H1. split.
  - apply (floorQ_ge_bound _ 18). change (inject_Z 18) with 18. lra.
  - pose proof (floorQ_le (r * (44 - 18) + 18)). lra.
Qed.

Lemma random_in_unit_upto_one (E : Env) : random_in_unit E -> random_upto_one E.
Proof. intros HR n. destruct (HR n). split; lra. Qed.

(** [Math.floor(rand(0,4))] is one of 0, 1, 2, 3: the four [if]s of
    [spawnAsteroid] leave no coordinate unassigned. *)
Lemma spawn_edge_range (r : Q) :
  0 <= r -> r < 1 -> (0 <= Qfloor (r * (4 - 0) + 0) <= 3)%Z.
Proof.
  intros H0 H1.
  pose proof (floorQ_ge_bound (r * (4 - 0) + 0) 0) as Hlo.
  pose proof (floorQ_lt_bound (r * (4 - 0) + 0) 4) as Hhi.
  unfold floorQ in Hlo, Hhi. rewrite <- Zle_Qle in Hlo, Hhi.
  change (inject_Z 0) with 0 in Hlo. change (inject_Z 4) with 4 in Hhi.
  split; [apply Hlo | apply Hhi]; lra.
Qed.

(** [spawnAsteroid] pushes one asteroid, whose radius is
    [Math.floor(rand(18,44))] for one of the draws, and changes nothing else
    of the state. *)
Lemma spawnAsteroid_spec (E : Env) (w : World) :
  exists (a : Asteroid.t) (k : nat),
    state (spawnAsteroid E w)
    = set_asteroids (asteroids (state w) ++ [a]) (state w)
    /\ Asteroid.radius a = floorQ (Math_random E k * (44 - 18) + 18)
    /\ keys (spawnAsteroid E w) = keys w
    /\ spawnFastToggle (spawnAsteroid E w) = spawnFastToggle w
    /\ shipSpeedMult (spawnAsteroid E w) = shipSpeedMult w
    /\ nowCalls (spawnAsteroid E w) = nowCalls w.
Proof.
  unfold spawnAsteroid, rand, random. cbv zeta.
  destruct (Qfloor _ =? 0)%Z; destruct (Qfloor _ =? 1)%Z;
    destruct (Qfloor _ =? 2)%Z; destruct (Qfloor _ =? 3)%Z;
    eexists; eexists; repeat split; reflexivity.
Qed.

Lemma State_eta_spawn (st : State) :
  st = set_spawnInterval (spawnInterval st)
         (set_lastSpawn (lastSpawn st) (set_asteroids (asteroids st ++ []) st)).
Proof.
  destruct st. unfold set_spawnInterval, set_lastSpawn, set_asteroids. simpl.
  rewrite app_nil_r. reflexivity.
Qed.

(** The spawn tick reads the clock once; when it fires it pushes one spawned
    asteroid, stamps the spawn time and shrinks the interval to
    [Math.max(500, spawnInterval * 0.98)]. *)
Lemma spawn_tick_spec (E : Env) (w : World) :
  exists (spawned : list Asteroid.t) (si ls : Q),
    state (spawn_tick E w)
    = set_spawnInterval si
        (set_lastSpawn ls
           (set_asteroids (asteroids (state w) ++ spawned) (state w)))
    /\ same_globals w (spawn_tick E w)
    /\ nowCalls (spawn_tick E w) = S (nowCalls w)
    /\ (spawned = [] /\ si = spawnInterval (state w)
        /\ ls = lastSpawn (state w)
        \/ exists (a : Asteroid.t) (k : nat),
             spawned = [a]
             /\ Asteroid.radius a = floorQ (Math_random E k * (44 - 18) + 18)
             /\ si = Qmax 500 (spawnInterval (state w) * 0.98)
             /\ ls = performance_now E (nowCalls w)).
Proof.
  unfold spawn_tick, now. cbv zeta.
  destruct (Qltb _ _).
  - destruct (spawnAsteroid_spec E (count_now w))
      as (a & k & Hst & Hr & Hk & Hf & Hm & Hn).
    exists [a], (Qmax 500 (spawnInterval (state w) * 0.98)),
      (performance_now E (nowCalls w)).
    split; [|split; [|split]].
    + unfold upd at 1 2. simpl. rewrite Hst. reflexivity.
    + unfold same_globals. simpl. rewrite Hk, Hf, Hm.
      repeat split; reflexivity.
    + simpl. rewrite Hn. reflexivity.
    + right. exists a, k. repeat split; assumption.
  - exists [], (spawnInterval (state w)), (lastSpawn (state w)).
    split; [apply (State_eta_spawn (state w))|].
    split; [repeat split; reflexivity|]. split; [reflexivity|].
    left. repeat split; reflexivity.
Qed.

(** ** A hit *)

Lemma fragment_spec (E : Env) (a : Asteroid.t) (w : World) :
  exists c : Asteroid.t,
    state (fragment E a w) = set_asteroids (asteroids (state w) ++ [c]) (state w)
    /\ fragment_of E a c
    /\ same_globals w (fragment E a w)
    /\ nowCalls (fragment E a w) = nowCalls w.
Proof.
  unfold fragment, rand, random. cbv zeta.
  eexists. split; [reflexivity|]. split; [|repeat split; reflexivity].
  exists (randomCalls w). unfold rand_at. simpl.
  replace (randomCalls w + 1)%nat with (S (randomCalls w)) by lia.
  replace (randomCalls w + 2)%nat with (S (S (randomCalls w))) by lia.
  replace (randomCalls w + 3)%nat with (S (S (S (randomCalls w)))) by lia.
  replace (randomCalls w + 4)%nat with (S (S (S (S (randomCalls w))))) by lia.
  replace (randomCalls w + 5)%nat
    with (S (S (S (S (S (randomCalls w)))))) by lia.
  reflexivity.
Qed.

(** A hit removes bullet [j] and asteroid [i], adds the award to the score
    and appends two fragments of the asteroid when its radius exceeds 26, none
    otherwise. *)
Lemma resolve_hit_spec (E : Env) (i j : nat) (a : Asteroid.t) (w : World) :
  exists kids : list Asteroid.t,
    state (resolve_hit E i j a w)
    = set_asteroids (delete i (asteroids (state w)) ++ kids)
        (set_score (score (state w) + award a)%Z
           (set_bullets (delete j (bullets (state w))) (state w)))
    /\ (if Qltb 26 (Asteroid.radius a)
        then exists c1 c2, kids = [c1; c2]
                           /\ fragment_of E a c1 /\ fragment_of E a c2
        else kids = [])
    /\ same_globals w (resolve_hit E i j a w)
    /\ nowCalls (resolve_hit E i j a w) = nowCalls w.
Proof.
  unfold resolve_hit, fragments. cbv zeta.
  set (w3 := upd _ (upd _ (upd _ w))).
  assert (Hw3 : state w3
    = set_asteroids (delete i (asteroids (state w)))
        (set_score (score (state w) + award a)%Z
           (set_bullets (delete j (bullets (state w))) (state w))))
    by reflexivity.
  destruct (Qltb 26 (Asteroid.radius a)).
  - destruct (fragment_spec E a w3) as (c1 & H1 & F1 & G1 & N1).
    destruct (fragment_spec E a (fragment E a w3)) as (c2 & H2 & F2 & G2 & N2).
    exists [c1; c2]. split; [|split; [eauto|split]].
    + rewrite H2, H1, Hw3. simpl. rewrite <- app_assoc. reflexivity.
    + destruct G1 as (?&?&?), G2 as (?&?&?).
      unfold same_globals. repeat split; congruence.
    + rewrite N2, N1. reflexivity.
  - exists []. split; [|split; [reflexivity|split; [|reflexivity]]].
    + rewrite Hw3, app_nil_r. reflexivity.
    + repeat split; reflexivity.
Qed.

(** ** The collision pass *)

Lemma state_eta (st : State) :
  st = set_asteroids (asteroids st)
         (set_score (score st + 0)%Z (set_bullets (bullets st) st)).
Proof. destruct st. unfold set_asteroids, set_score, set_bullets. simpl.
  rewrite Z.add_0_r. reflexivity. Qed.

(** The pass over the asteroids from index [n - 1] down to 0 never reads past
    the end of either array.  Of the asteroids it goes through, some survive
    in place ([surv]) and the others are destroyed ([destroyed]), one bullet
    each; the asteroids above [n] are not touched, and the fragments ([kids])
    are appended after them. *)
Lemma collide_loop_spec (E : Env) (n : nat) (w : World) :
  (n <= length (asteroids (state w)))%nat ->
  exists (w' : World) (surv destroyed kids : list Asteroid.t)
         (bs' : list Bullet.t),
    collide_loop E n w = Some w'
    /\ state w'
       = set_asteroids (surv ++ drop n (asteroids (state w)) ++ kids)
           (set_score (score (state w) + total_award destroyed)%Z
              (set_bullets bs' (state w)))
    /\ same_globals w w'
    /\ nowCalls w' = nowCalls w
    /\ surv `sublist_of` take n (asteroids (state w))
    /\ surv ++ destroyed ≡ₚ take n (asteroids (state w))
    /\ bs' `sublist_of` bullets (state w)
    /\ (length bs' + length destroyed = length (bullets (state w)))%nat
    /\ Forall (fun c => exists a, a ∈ destroyed /\ splits a = true
                                 /\ fragment_of E a c) kids
    /\ length kids = (2 * length (List.filter splits destroyed))%nat.
Proof.
  revert w. induction n as [|i IH]; intros w Hn.
  - exists w, [], [], [], (bullets (state w)). simpl.
    rewrite drop_0, app_nil_r.
    split; [reflexivity|]. split; [apply state_eta|].
    split; [repeat split; reflexivity|]. split; [reflexivity|].
    split; [constructor|]. split; [reflexivity|]. split; [reflexivity|].
    split; [lia|]. split; [constructor | reflexivity].
  - simpl collide_loop.
    destruct (lookup_lt_is_Some_2 (asteroids (state w)) i) as [a Ha]; [lia|].
    rewrite Ha. simpl.
    destruct (scan_bullets_spec a (length (bullets (state w)))
                (bullets (state w))) as [r [Hr Hspec]]; [lia|].
    rewrite Hr. simpl. destruct r as [j|].
    + (* bullet j hits asteroid i *)
      destruct Hspec as (Hj & _ & _).
      destruct (resolve_hit_spec E i j a w) as (kids1 & Hst1 & Hk1 & G1 & N1).
      set (w1 := resolve_hit E i j a w) in *.
      assert (Has1 : asteroids (state w1)
                     = take i (asteroids (state w))
                       ++ drop (S i) (asteroids (state w)) ++ kids1).
      { rewrite Hst1. simpl. rewrite delete_take_drop, <- app_assoc.
        reflexivity. }
      assert (Hlen : length (take i (asteroids (state w))) = i)
        by (rewrite length_take; lia).
      destruct (IH w1) as (w' & surv & destroyed & kids & bs' & Hrun & Hst
                           & G & N & Hsub & Hperm & Hbs & Hcount & Hkids
                           & Hklen).
      { rewrite Has1, length_app. lia. }
      rewrite Has1 in Hst, Hsub, Hperm.
      rewrite take_app_length' in Hsub, Hperm by (symmetry; exact Hlen).
      rewrite drop_app_length' in Hst by (symmetry; exact Hlen).
      exists w', surv, (a :: destroyed), (kids1 ++ kids), bs'.
      split; [exact Hrun|]. split.
      { rewrite Hst, Hst1. simpl. rewrite <- !app_assoc, Z.add_assoc.
        reflexivity. }
      split.
      { destruct G as (?&?&?), G1 as (?&?&?). repeat split; congruence. }
      split; [congruence|]. split.
      { rewrite (take_S_r _ _ _ Ha). apply sublist_inserts_r. exact Hsub. }
      split.
      { rewrite (take_S_r _ _ _ Ha), <- Hperm.
        rewrite <- Permutation_middle, Permutation_cons_append.
        reflexivity. }
      assert (Hb1 : bullets (state w1) = delete j (bullets (state w)))
        by (rewrite Hst1; reflexivity).
      rewrite Hb1 in Hbs, Hcount.
      split; [etrans; [exact Hbs | apply sublist_delete]|].
      split.
      { rewrite length_delete in Hcount by (apply lookup_lt_is_Some_2; lia).
        simpl. lia. }
      change (Qltb 26 (Asteroid.radius a)) with (splits a) in Hk1.
      change (List.filter splits (a :: destroyed))
        with (if splits a then a :: List.filter splits destroyed
              else List.filter splits destroyed).
      destruct (splits a) eqn:Hbig.
      * destruct Hk1 as (c1 & c2 & -> & F1 & F2). split.
        -- apply Forall_app. split.
           ++ repeat constructor; exists a; (split; [left|split; assumption]).
           ++ eapply Forall_impl; [exact Hkids|].
              intros c (a' & Hin & Hbig' & Hf). exists a'.
              split; [right; exact Hin | split; assumption].
        -- simpl. rewrite Hklen. lia.
      * subst kids1. split.
        -- simpl. eapply Forall_impl; [exact Hkids|].
           intros c (a' & Hin & Hbig' & Hf). exists a'.
           split; [right; exact Hin | split; assumption].
        -- simpl. exact Hklen.
    + (* no bullet hits asteroid i *)
      destruct (IH w) as (w' & surv & destroyed & kids & bs' & Hrun & Hst
                          & G & N & Hsub & Hperm & Hbs & Hcount & Hkids
                          & Hklen); [lia|].
      exists w', (surv ++ [a]), destroyed, kids, bs'.
      split; [exact Hrun|]. split.
      { rewrite Hst, (drop_S _ _ _ Ha), <- !app_assoc. reflexivity. }
      split; [exact G|]. split; [exact N|]. split.
      { rewrite (take_S_r _ _ _ Ha). apply sublist_app; [exact Hsub|reflexivity]. }
      split.
      { rewrite (take_S_r _ _ _ Ha), <- Hperm.
        rewrite <- !app_assoc. apply Permutation_app_head, Permutation_app_comm. }
      repeat split; assumption.
Qed.

Lemma collide_bullets_spec (E : Env) (w : World) :
  exists (w' : World) (surv destroyed kids : list Asteroid.t),
    collide_bullets E w = Some w'
    /\ state w'
       = set_asteroids (surv ++ kids)
           (set_score (score (state w) + total_award destroyed)%Z
              (set_bullets (bullets (state w')) (state w)))
    /\ same_globals w w'
    /\ nowCalls w' = nowCalls w
    /\ surv `sublist_of` asteroids (state w)
    /\ surv ++ destroyed ≡ₚ asteroids (state w)
    /\ bullets (state w') `sublist_of` bullets (state w)
    /\ (length (bullets (state w')) + length destroyed
        = length (bullets (state w)))%nat
    /\ Forall (fun c => exists a, a ∈ destroyed /\ splits a = true
                                 /\ fragment_of E a c) kids
    /\ length kids = (2 * length (List.filter splits destroyed))%nat.
Proof.
  unfold collide_bullets.
  destruct (collide_loop_spec E (length (asteroids (state w))) w)
    as (w' & surv & destroyed & kids & bs' & Hrun & Hst & G & N & Hsub
        & Hperm & Hbs & Hcount & Hkids & Hklen); [lia|].
  rewrite firstn_all in Hsub, Hperm. rewrite drop_all in Hst.
  assert (Hb : bullets (state w') = bs') by (rewrite Hst; reflexivity).
  exists w', surv, destroyed, kids. rewrite Hb.
  repeat split; try assumption. apply G. apply G. apply G.
Qed.

(** ** One call of [step] *)

Lemma after_restart_check_spec (E : Env) (dt : Q) (fresh : bool) (s : Ship.t)
    (w : World) :
  exists w' : World,
    after_restart_check E dt fresh s w = Some w'
    /\ tick_outcome E dt (wrap E (physics dt s))
         (if fresh then w else upd (set_ship (Some (wrap E (physics dt s)))) w)
         w'.
Proof.
  unfold after_restart_check. cbv zeta.
  set (s' := wrap E (physics dt s)).
  set (w0 := if fresh then w else upd (set_ship (Some s')) w).
  rewrite update_bullets_spec. simpl.
  set (w1 := upd (set_bullets (bullets_updated dt (bullets (state w0)))) w0).
  destruct (spawn_tick_spec E w1) as (spawned & si & ls & Hst2 & G2 & N2 & Hcase).
  set (w2 := spawn_tick E w1) in *.
  rewrite update_asteroids_spec. simpl.
  set (w3 := upd (set_asteroids (asteroids_updated E dt (asteroids (state w2))))
               w2).
  destruct (collide_bullets_spec E w3)
    as (w4 & surv & destroyed & kids & Hrun & Hst4 & G4 & N4 & Hsub & Hperm
        & Hbs & Hcount & Hkids & Hklen).
  rewrite Hrun. simpl. rewrite collide_ship_spec.
  assert (Ha3 : asteroids (state w3)
                = asteroids_updated E dt (asteroids (state w0) ++ spawned))
    by (simpl; rewrite Hst2; reflexivity).
  assert (Hb3 : bullets (state w3) = bullets_updated dt (bullets (state w0)))
    by (simpl; rewrite Hst2; reflexivity).
  rewrite Ha3 in Hsub, Hperm. rewrite Hb3 in Hbs, Hcount.
  assert (Hst3 : state w3
    = set_asteroids (asteroids_updated E dt (asteroids (state w0) ++ spawned))
        (set_spawnInterval si (set_lastSpawn ls
           (set_bullets (bullets_updated dt (bullets (state w0))) (state w0)))))
    by (simpl; rewrite Hst2; reflexivity).
  rewrite Hst3 in Hst4.
  assert (G : same_globals w0 w4).
  { destruct G2 as (?&?&?), G4 as (?&?&?).
    unfold same_globals. simpl in *. repeat split; congruence. }
  eexists. split; [reflexivity|].
  set (w5 := if existsb _ _ then _ else w4).
  assert (H5 : asteroids (state w5) = asteroids (state w4)
               /\ bullets (state w5) = bullets (state w4)
               /\ score (state w5) = score (state w4)
               /\ spawnInterval (state w5) = spawnInterval (state w4)
               /\ lastSpawn (state w5) = lastSpawn (state w4)
               /\ ship (state w5) = ship (state w4)
               /\ lastTime (state w5) = lastTime (state w4)
               /\ _shotCooldown (state w5) = _shotCooldown (state w4)
               /\ same_globals w4 w5
               /\ gameOver (state w5)
                  = existsb (touches s') (asteroids (state w4))
                    || gameOver (state w4)).
  { subst w5. destruct (existsb _ _); simpl; repeat split; reflexivity. }
  destruct H5 as (E1 & E2 & E3 & E4 & E5 & E6 & E7 & E8 & G5 & E9).
  exists spawned, surv, destroyed, kids.
  rewrite E1, E2, E3, E4, E5, E6, E7, E8, E9.
  split.
  { destruct Hcase as [(-> & -> & ->) | (a & k & -> & Hr & -> & ->)].
    - left. rewrite Hst4. repeat split; reflexivity.
    - right. exists a, k. rewrite Hst4. repeat split; try reflexivity.
      exact Hr. }
  split; [exact Hsub|]. split; [exact Hperm|].
  split; [rewrite Hst4; reflexivity|].
  split; [exact Hkids|]. split; [exact Hklen|].
  split; [exact Hbs|]. split; [exact Hcount|].
  split; [rewrite Hst4; reflexivity|].
  split; [rewrite Hst4 at 2; reflexivity|].
  split; [rewrite Hst4; reflexivity|].
  split; [rewrite Hst4; reflexivity|].
  split; [rewrite Hst4; reflexivity|].
  destruct G as (?&?&?), G5 as (?&?&?). repeat split; congruence.
Qed.

Lemma State_eta_fire (st : State) :
  st = set_shotCooldown (_shotCooldown st) (set_bullets (bullets st) st).
Proof. destruct st. reflexivity. Qed.

(** Firing needs the ship; it can only push a bullet and stamp the shot. *)
Lemma fire_spec (E : Env) (w : World) (s : Ship.t) :
  ship (state w) = Some s ->
  exists (w' : World) (bs : list Bullet.t) (c : option Q),
    fire E w = Some w'
    /\ state w' = set_shotCooldown c (set_bullets bs (state w))
    /\ same_globals w w'.
Proof.
  intros Hs.
  assert (Hshoot : exists (w' : World) (bs : list Bullet.t) (c : option Q),
             shoot_and_stamp E w = Some w'
             /\ state w' = set_shotCooldown c (set_bullets bs (state w))
             /\ same_globals w w').
  { unfold shoot_and_stamp, shoot. rewrite Hs. simpl.
    eexists. eexists. eexists. split; [reflexivity|].
    split; [reflexivity | repeat split; reflexivity]. }
  assert (Hshoot' : forall w0 : World,
             state w0 = state w -> same_globals w w0 ->
             exists (w' : World) (bs : list Bullet.t) (c : option Q),
               shoot_and_stamp E w0 = Some w'
               /\ state w' = set_shotCooldown c (set_bullets bs (state w))
               /\ same_globals w w').
  { intros w0 Hst0 G0. unfold shoot_and_stamp, shoot. rewrite Hst0, Hs. simpl.
    eexists. eexists. eexists. split; [reflexivity|]. simpl. rewrite Hst0.
    split; [reflexivity|]. destruct G0 as (?&?&?).
    repeat split; simpl; assumption. }
  assert (Hnone : exists (w' : World) (bs : list Bullet.t) (c : option Q),
             Some w = Some w'
             /\ state w' = set_shotCooldown c (set_bullets bs (state w))
             /\ same_globals w w').
  { exists w, (bullets (state w)), (_shotCooldown (state w)).
    split; [reflexivity|]. split; [apply State_eta_fire|].
    repeat split; reflexivity. }
  unfold fire. destruct (key "Space" w); [|exact Hnone].
  destruct (_shotCooldown (state w)) as [t0|] eqn:Hc; [|exact Hshoot].
  destruct (Qeq_bool t0 0); [exact Hshoot|].
  unfold now. cbv zeta. simpl.
  destruct (Qltb 180 _).
  - apply Hshoot'; [reflexivity | repeat split; reflexivity].
  - exists (count_now w), (bullets (state w)), (_shotCooldown (state w)).
    split; [reflexivity|]. split; [apply (State_eta_fire (state w))|].
    repeat split; reflexivity.
Qed.

(** [step] on a world that has a ship runs to the end (no read of
    [undefined]).  The world [w_in] that enters line 175 is the one [reset]
    has just made when a restart was requested; otherwise it is the input
    with the ship moved and, possibly, a bullet fired. *)
Lemma step_spec (E : Env) (dt : Q) (w : World) (s : Ship.t) :
  ship (state w) = Some s ->
  exists (w' w_in : World),
    step E dt w = Some w'
    /\ tick_outcome E dt (wrap E (physics dt (controls E dt w s))) w_in w'
    /\ (if restart_requested w
        then exists wf : World,
               fire E (upd (set_ship (Some (controls E dt w s))) w) = Some wf
               /\ w_in = reset E wf
        else exists (bs : list Bullet.t) (c : option Q),
               state w_in
               = set_shotCooldown c
                   (set_bullets bs
                      (set_ship
                         (Some (wrap E (physics dt (controls E dt w s))))
                         (state w)))
               /\ same_globals w w_in).
Proof.
  intros Hs. unfold step. rewrite Hs. cbv zeta.
  set (s1 := controls E dt w s).
  destruct (fire_spec E (upd (set_ship (Some s1)) w) s1)
    as (wf & bs & c & Hf & Hstf & Gf); [reflexivity|].
  rewrite Hf. simpl.
  assert (Hrr : restart_requested wf = restart_requested w).
  { unfold restart_requested, key. destruct Gf as (-> & _ & _).
    rewrite Hstf. reflexivity. }
  rewrite Hrr. destruct (restart_requested w).
  - destruct (after_restart_check_spec E dt true s1 (reset E wf))
      as (w' & Hrun & Hout).
    exists w', (reset E wf). split; [exact Hrun|]. split; [exact Hout|].
    exists wf. split; reflexivity.
  - destruct (after_restart_check_spec E dt false s1 wf) as (w' & Hrun & Hout).
    exists w', (upd (set_ship (Some (wrap E (physics dt s1)))) wf).
    split; [exact Hrun|]. split; [exact Hout|].
    exists bs, c. split.
    + simpl. rewrite Hstf. reflexivity.
    + destruct Gf as (?&?&?). repeat split; simpl; assumption.
Qed.

(** [step] never throws, whatever the world. *)
Lemma step_total (E : Env) (dt : Q) (w : World) :
  exists w' : World, step E dt w = Some w'.
Proof.
  destruct (ship (state w)) as [s|] eqn:Hs.
  - destruct (step_spec E dt w s Hs) as (w' & _ & Hrun & _). eauto.
  - exists w. unfold step. rewrite Hs. reflexivity.
Qed.

(** ** The collision pass and the list function *)

Lemma last_hit_snoc (a : Asteroid.t) (bs : list Bullet.t) (b : Bullet.t) :
  last_hit a (bs ++ [b])
  = if hits a b then Some (length bs) else last_hit a bs.
Proof.
  induction bs as [|x bs IH]; simpl.
  - destruct (hits a b); reflexivity.
  - rewrite IH. destruct (hits a b); reflexivity.
Qed.

(** The scan of the source returns what [last_hit] returns. *)
Lemma scan_last_hit_prefix (a : Asteroid.t) (pre post : list Bullet.t) :
  scan_bullets a (length pre) (pre ++ post) = Some (last_hit a pre).
Proof.
  revert post. induction pre as [|b pre IH] using rev_ind; intros post.
  - reflexivity.
  - rewrite length_app, Nat.add_comm. simpl.
    rewrite <- app_assoc. simpl.
    rewrite list_lookup_middle by reflexivity. simpl.
    rewrite last_hit_snoc. destruct (hits a b); [reflexivity|]. apply IH.
Qed.

Lemma scan_last_hit (a : Asteroid.t) (bs : list Bullet.t) :
  scan_bullets a (length bs) bs = Some (last_hit a bs).
Proof.
  pose proof (scan_last_hit_prefix a bs []) as H.
  rewrite app_nil_r in H. exact H.
Qed.

Lemma last_hit_spec (a : Asteroid.t) (bs : list Bullet.t) :
  match last_hit a bs with
  | Some j => exists b, bs !! j = Some b /\ hits a b = true
  | None => Forall (fun b => hits a b = false) bs
  end.
Proof.
  induction bs as [|x bs IH]; simpl.
  - constructor.
  - destruct (last_hit a bs) as [j|].
    + exact IH.
    + destruct (hits a x) eqn:Hx.
      * exists x. split; [reflexivity | exact Hx].
      * constructor; assumption.
Qed.

Lemma collide_fn_snoc (l : list Asteroid.t) (a : Asteroid.t)
    (bs : list Bullet.t) :
  collide_fn (l ++ [a]) bs
  = match last_hit a bs with
    | Some j =>
        mkCollision (survivors (collide_fn l (delete j bs)))
          (shot_down (collide_fn l (delete j bs)) ++ [a])
          (bullets_left (collide_fn l (delete j bs)))
    | None =>
        mkCollision (survivors (collide_fn l bs) ++ [a])
          (shot_down (collide_fn l bs)) (bullets_left (collide_fn l bs))
    end.
Proof.
  induction l as [|x l IH]; simpl.
  - destruct (last_hit a bs); reflexivity.
  - rewrite IH. destruct (last_hit a bs) as [j|]; simpl;
      destruct (last_hit x _); reflexivity.
Qed.

Lemma total_award_app (l k : list Asteroid.t) :
  total_award (l ++ k) = (total_award l + total_award k)%Z.
Proof.
  induction l as [|a l IH]; simpl; [reflexivity|]. rewrite IH. lia.
Qed.

(** The pass of the source over the asteroids [pre], from the last one down,
    computes [collide_fn pre]: the survivors stay in place, the asteroids
    [post] above them are not touched, and the fragments of the asteroids
    shot down are appended in the order in which these were shot down, the
    last one first. *)
Lemma collide_loop_exact (E : Env) (pre post : list Asteroid.t) (w : World) :
  asteroids (state w) = pre ++ post ->
  exists (w' : World) (kids : list Asteroid.t),
    collide_loop E (length pre) w = Some w'
    /\ state w'
       = set_asteroids
           (survivors (collide_fn pre (bullets (state w))) ++ post ++ kids)
           (set_score
              (score (state w)
               + total_award (shot_down (collide_fn pre (bullets (state w)))))%Z
              (set_bullets
                 (bullets_left (collide_fn pre (bullets (state w))))
                 (state w)))
    /\ same_globals w w'
    /\ nowCalls w' = nowCalls w
    /\ fragments_made E
         (rev (shot_down (collide_fn pre (bullets (state w))))) kids.
Proof.
  revert post w. induction pre as [|a pre IH] using rev_ind; intros post w Has.
  - exists w, []. simpl. rewrite app_nil_r.
    split; [reflexivity|]. split.
    { simpl in Has. rewrite <- Has. apply state_eta. }
    split; [repeat split; reflexivity|]. split; reflexivity.
  - rewrite length_app, Nat.add_comm. simpl collide_loop.
    rewrite <- app_assoc in Has. simpl in Has.
    rewrite Has, list_lookup_middle by reflexivity. simpl.
    rewrite scan_last_hit. simpl.
    rewrite collide_fn_snoc.
    destruct (last_hit a (bullets (state w))) as [j|] eqn:Hj.
    + destruct (resolve_hit_spec E (length pre) j a w)
        as (kids1 & Hst1 & Hk1 & G1 & N1).
      set (w1 := resolve_hit E (length pre) j a w) in *.
      assert (Has1 : asteroids (state w1) = pre ++ (post ++ kids1)).
      { rewrite Hst1. simpl. rewrite Has, delete_middle, <- app_assoc.
        reflexivity. }
      assert (Hb1 : bullets (state w1) = delete j (bullets (state w)))
        by (rewrite Hst1; reflexivity).
      destruct (IH (post ++ kids1) w1 Has1)
        as (w' & kids & Hrun & Hst & G & N & Hk).
      rewrite Hb1 in Hst, Hk.
      exists w', (kids1 ++ kids). split; [exact Hrun|]. simpl. split.
      { rewrite Hst, Hst1. unfold set_asteroids, set_score, set_bullets.
        simpl. rewrite total_award_app, <- !app_assoc. simpl.
        f_equal. lia. }
      split.
      { destruct G as (?&?&?), G1 as (?&?&?). repeat split; congruence. }
      split; [congruence|].
      rewrite rev_unit. simpl.
      change (Qltb 26 (Asteroid.radius a)) with (splits a) in Hk1.
      destruct (splits a).
      * destruct Hk1 as (c1 & c2 & -> & F1 & F2).
        exists c1, c2, kids. repeat split; assumption.
      * subst kids1. exact Hk.
    + destruct (IH (a :: post) w Has) as (w' & kids & Hrun & Hst & G & N & Hk).
      exists w', kids. split; [exact Hrun|]. simpl. split.
      { rewrite Hst, <- !app_assoc. reflexivity. }
      repeat split; try assumption; apply G.
Qed.

Lemma collide_bullets_exact (E : Env) (w : World) :
  exists (w' : World) (kids : list Asteroid.t),
    collide_bullets E w = Some w'
    /\ state w'
       = set_asteroids
           (survivors (collide_fn (asteroids (state w)) (bullets (state w)))
            ++ kids)
           (set_score
              (score (state w)
               + total_award
                   (shot_down
                      (collide_fn (asteroids (state w)) (bullets (state w)))))%Z
              (set_bullets
                 (bullets_left
                    (collide_fn (asteroids (state w)) (bullets (state w))))
                 (state w)))
    /\ same_globals w w'
    /\ nowCalls w' = nowCalls w
    /\ fragments_made E
         (rev (shot_down
                 (collide_fn (asteroids (state w)) (bullets (state w))))) kids.
Proof.
  unfold collide_bullets.
  destruct (collide_loop_exact E (asteroids (state w)) [] w)
    as (w' & kids & Hrun & Hst & G & N & Hk); [rewrite app_nil_r; reflexivity|].
  exists w', kids. split; [exact Hrun|]. split; [exact Hst|].
  repeat split; try assumption; apply G.
Qed.

(** What [collide_fn] decides.  The asteroids are split between the
    survivors and those shot down, both in their order; one bullet is removed
    for each asteroid shot down, and the bullets left are in their order. *)
Lemma collide_fn_partition (l : list Asteroid.t) (bs : list Bullet.t) :
  survivors (collide_fn l bs) `sublist_of` l
  /\ shot_down (collide_fn l bs) `sublist_of` l
  /\ survivors (collide_fn l bs) ++ shot_down (collide_fn l bs) ≡ₚ l
  /\ bullets_left (collide_fn l bs) `sublist_of` bs
  /\ (length (bullets_left (collide_fn l bs))
      + length (shot_down (collide_fn l bs)) = length bs)%nat.
Proof.
  induction l as [|a l (IH1 & IH2 & IH3 & IH4 & IH5)]; simpl.
  - repeat split; try reflexivity. simpl. lia.
  - pose proof (last_hit_spec a (bullets_left (collide_fn l bs))) as Hj.
    destruct (last_hit a (bullets_left (collide_fn l bs))) as [j|]; simpl.
    + destruct Hj as (b & Hb & _).
      split; [apply sublist_cons; exact IH1|].
      split; [apply sublist_skip; exact IH2|].
      split; [rewrite <- Permutation_middle, IH3; reflexivity|].
      split; [etrans; [apply sublist_delete | exact IH4]|].
      rewrite length_delete by eauto.
      apply lookup_lt_Some in Hb. lia.
    + split; [apply sublist_skip; exact IH1|].
      split; [apply sublist_cons; exact IH2|].
      split; [rewrite IH3; reflexivity|].
      split; assumption.
Qed.

(** An asteroid is shot down only if a bullet was over it, and no bullet
    that is left is over a survivor. *)
Lemma collide_fn_hits (l : list Asteroid.t) (bs : list Bullet.t) :
  Forall (fun a => exists b, b ∈ bs /\ hits a b = true)
    (shot_down (collide_fn l bs))
  /\ Forall (fun a => Forall (fun b => hits a b = false)
                        (bullets_left (collide_fn l bs)))
       (survivors (collide_fn l bs)).
Proof.
  induction l as [|a l [IH1 IH2]]; simpl.
  - split; constructor.
  - destruct (collide_fn_partition l bs) as (_ & _ & _ & Hsub & _).
    pose proof (last_hit_spec a (bullets_left (collide_fn l bs))) as Hj.
    destruct (last_hit a (bullets_left (collide_fn l bs))) as [j|]; simpl.
    + destruct Hj as (b & Hb & Hhit). split.
      * constructor; [|exact IH1]. exists b. split; [|exact Hhit].
        eapply elem_of_sublist; [|exact Hsub].
        apply list_elem_of_lookup. exists j. exact Hb.
      * eapply Forall_impl; [exact IH2|]. intros a' Ha'. simpl in Ha'.
        exact (Forall_sublist _ _ _ (sublist_delete _ _) Ha').
    + split; [exact IH1|]. constructor; assumption.
Qed.

(** When no asteroid is shot down, nothing has changed. *)
Lemma collide_fn_none (l : list Asteroid.t) (bs : list Bullet.t) :
  shot_down (collide_fn l bs) = [] ->
  survivors (collide_fn l bs) = l /\ bullets_left (collide_fn l bs) = bs.
Proof.
  induction l as [|a l IH]; simpl.
  - intros _. split; reflexivity.
  - destruct (last_hit a (bullets_left (collide_fn l bs))) as [j|]; simpl.
    + discriminate.
    + intros H. destruct (IH H) as [-> ->]. split; reflexivity.
Qed.

(** So a bullet over an asteroid never goes unnoticed: some asteroid is shot
    down. *)
Lemma collide_fn_some (l : list Asteroid.t) (bs : list Bullet.t)
    (a : Asteroid.t) (b : Bullet.t) :
  a ∈ l -> b ∈ bs -> hits a b = true -> shot_down (collide_fn l bs) <> [].
Proof.
  intros Ha Hb Hhit Hnone.
  destruct (collide_fn_none l bs Hnone) as [Hs Hl].
  destruct (collide_fn_hits l bs) as [_ Hsurv].
  rewrite Hs, Hl in Hsurv.
  rewrite Forall_forall in Hsurv. specialize (Hsurv a Ha).
  rewrite Forall_forall in Hsurv. specialize (Hsurv b Hb).
  congruence.
Qed.

(** ** One call of [step], exactly *)

(** The spawn tick fires exactly when the clock reads more than the spawn
    interval past the last spawn. *)
Lemma spawn_tick_exact (E : Env) (w : World) :
  exists spawned : list Asteroid.t,
    state (spawn_tick E w)
    = set_spawnInterval
        (if spawn_due E w then Qmax 500 (spawnInterval (state w) * 0.98)
         else spawnInterval (state w))
        (set_lastSpawn
           (if spawn_due E w then performance_now E (nowCalls w)
            else lastSpawn (state w))
           (set_asteroids (asteroids (state w) ++ spawned) (state w)))
    /\ (if spawn_due E w
        then exists (a : Asteroid.t) (k : nat),
               spawned = [a]
               /\ Asteroid.radius a = floorQ (Math_random E k * (44 - 18) + 18)
               /\ asteroids (state (spawnAsteroid E (count_now w)))
                  = asteroids (state w) ++ [a]
        else spawned = [])
    /\ same_globals w (spawn_tick E w)
    /\ nowCalls (spawn_tick E w) = S (nowCalls w).
Proof.
  unfold spawn_tick, now, spawn_due. cbv zeta.
  change (state (count_now w)) with (state w).
  destruct (Qltb _ _).
  - destruct (spawnAsteroid_spec E (count_now w))
      as (a & k & Hst & Hr & Hk & Hf & Hm & Hn).
    exists [a]. split; [|split; [|split]].
    + unfold upd at 1 2. simpl. rewrite Hst. reflexivity.
    + exists a, k. split; [reflexivity|]. split; [exact Hr|].
      rewrite Hst. reflexivity.
    + unfold same_globals. simpl. rewrite Hk, Hf, Hm.
      repeat split; reflexivity.
    + simpl. rewrite Hn. reflexivity.
  - exists []. split; [apply (State_eta_spawn (state w))|].
    split; [reflexivity|]. split; [repeat split; reflexivity | reflexivity].
Qed.

(** The world in which the collision pass starts. *)
Lemma before_collisions_exact (E : Env) (dt : Q) (w : World) :
  exists spawned : list Asteroid.t,
    state (before_collisions E dt w)
    = set_asteroids (asteroids_updated E dt (asteroids (state w) ++ spawned))
        (set_spawnInterval
           (if spawn_due E w then Qmax 500 (spawnInterval (state w) * 0.98)
            else spawnInterval (state w))
           (set_lastSpawn
              (if spawn_due E w then performance_now E (nowCalls w)
               else lastSpawn (state w))
              (set_bullets (bullets_updated dt (bullets (state w))) (state w))))
    /\ (if spawn_due E w
        then exists (a : Asteroid.t) (k : nat),
               spawned = [a]
               /\ Asteroid.radius a = floorQ (Math_random E k * (44 - 18) + 18)
        else spawned = [])
    /\ same_globals w (before_collisions E dt w)
    /\ nowCalls (before_collisions E dt w) = S (nowCalls w).
Proof.
  unfold before_collisions, asteroids_moved.
  destruct (spawn_tick_exact E (bullets_moved dt w))
    as (spawned & Hst & Hsp & G & N).
  change (spawn_due E (bullets_moved dt w)) with (spawn_due E w) in Hst, Hsp.
  exists spawned. split; [|split; [|split]].
  - simpl. rewrite Hst. reflexivity.
  - destruct (spawn_due E w); [|exact Hsp].
    destruct Hsp as (a & k & H1 & H2 & _). exists a, k. split; assumption.
  - destruct G as (G1 & G2 & G3). repeat split; simpl; assumption.
  - simpl. exact N.
Qed.

Lemma State_eta_gameOver (st : State) : st = set_gameOver (gameOver st) st.
Proof. destruct st. reflexivity. Qed.

(** Lines 163-244: the loops of the source compute the list functions. *)
Lemma after_restart_check_exact (E : Env) (dt : Q) (fresh : bool) (s : Ship.t)
    (w : World) :
  exists (w' : World) (kids : list Asteroid.t),
    after_restart_check E dt fresh s w = Some w'
    /\ (forall (w3 : World) (c : Collision),
          w3 = before_collisions E dt
                 (if fresh then w
                  else upd (set_ship (Some (wrap E (physics dt s)))) w) ->
          c = collide_fn (asteroids (state w3)) (bullets (state w3)) ->
          state w'
          = set_gameOver
              (existsb (touches (wrap E (physics dt s))) (survivors c ++ kids)
               || gameOver (state w3))
              (set_asteroids (survivors c ++ kids)
                 (set_score (score (state w3) + total_award (shot_down c))%Z
                    (set_bullets (bullets_left c) (state w3))))
          /\ fragments_made E (rev (shot_down c)) kids
          /\ same_globals w3 w'
          /\ nowCalls w' = nowCalls w3).
Proof.
  unfold after_restart_check. cbv zeta.
  set (s' := wrap E (physics dt s)).
  set (w0 := if fresh then w else upd (set_ship (Some s')) w).
  rewrite update_bullets_spec. simpl.
  rewrite update_asteroids_spec. simpl.
  change (upd (set_asteroids (asteroids_updated E dt
            (asteroids (state (spawn_tick E
               (upd (set_bullets (bullets_updated dt (bullets (state w0))))
                  w0))))))
            (spawn_tick E
               (upd (set_bullets (bullets_updated dt (bullets (state w0))))
                  w0)))
    with (before_collisions E dt w0).
  set (w3 := before_collisions E dt w0).
  destruct (collide_bullets_exact E w3) as (w4 & kids & Hrun & Hst & G & N & Hk).
  rewrite Hrun. simpl. rewrite collide_ship_spec.
  eexists. exists kids. split; [reflexivity|].
  intros w3' c -> ->. fold w3.
  assert (Ha4 : asteroids (state w4)
                = survivors (collide_fn (asteroids (state w3))
                               (bullets (state w3))) ++ kids)
    by (rewrite Hst; reflexivity).
  assert (Hg4 : gameOver (state w4) = gameOver (state w3))
    by (rewrite Hst; reflexivity).
  rewrite <- Hst, <- Ha4, <- Hg4.
  split; [|split; [exact Hk|]].
  - destruct (existsb (touches s') (asteroids (state w4))); simpl.
    + destruct (state w4); reflexivity.
    + apply State_eta_gameOver.
  - destruct (existsb (touches s') (asteroids (state w4))); simpl;
      (split; [|exact N]); destruct G as (?&?&?); repeat split; assumption.
Qed.

(** [step] on a world with a ship: the fire lines leave a world [wf], and
    the rest of the call is the list functions applied to the world in which
    line 175 starts. *)
Lemma step_exact (E : Env) (dt : Q) (w : World) (s : Ship.t) :
  ship (state w) = Some s ->
  exists (w' wf : World) (kids : list Asteroid.t) (bs : list Bullet.t)
         (c0 : option Q),
    fire E (upd (set_ship (Some (controls E dt w s))) w) = Some wf
    /\ state wf
       = set_shotCooldown c0
           (set_bullets bs (set_ship (Some (controls E dt w s)) (state w)))
    /\ same_globals w wf
    /\ step E dt w = Some w'
    /\ (forall (w3 : World) (c : Collision),
          w3 = before_collisions E dt (entering_updates E dt s w wf) ->
          c = step_collision E dt s w wf ->
          state w'
          = set_gameOver
              (existsb (touches (wrap E (physics dt (controls E dt w s))))
                 (survivors c ++ kids)
               || gameOver (state w3))
              (set_asteroids (survivors c ++ kids)
                 (set_score (score (state w3) + total_award (shot_down c))%Z
                    (set_bullets (bullets_left c) (state w3))))
          /\ fragments_made E (rev (shot_down c)) kids
          /\ same_globals w3 w'
          /\ nowCalls w' = nowCalls w3).
Proof.
  intros Hs. unfold step. rewrite Hs. cbv zeta.
  set (s1 := controls E dt w s).
  destruct (fire_spec E (upd (set_ship (Some s1)) w) s1)
    as (wf & bs & c0 & Hf & Hstf & Gf); [reflexivity|].
  rewrite Hf. simpl.
  assert (Hrr : restart_requested wf = restart_requested w).
  { unfold restart_requested, key. destruct Gf as (-> & _ & _).
    rewrite Hstf. reflexivity. }
  rewrite Hrr. unfold step_collision, entering_updates. fold s1.
  destruct (restart_requested w).
  - destruct (after_restart_check_exact E dt true s1 (reset E wf))
      as (w' & kids & Hrun & Hout).
    exists w', wf, kids, bs, c0. split; [reflexivity|]. split; [exact Hstf|].
    split; [exact Gf|]. split; [exact Hrun|].
    intros w3 c -> ->. apply Hout; reflexivity.
  - destruct (after_restart_check_exact E dt false s1 wf)
      as (w' & kids & Hrun & Hout).
    exists w', wf, kids, bs, c0. split; [reflexivity|]. split; [exact Hstf|].
    split; [exact Gf|]. split; [exact Hrun|].
    intros w3 c -> ->. apply Hout; reflexivity.
Qed.

(** ** The game-over latch and the restart key *)

Lemma loop_game_over (E : Env) (t : Q) (w : World) :
  gameOver (state w) = true -> loop E t w = Some (upd (set_lastTime t) w).
Proof. intros H. unfold loop. cbv zeta. simpl. rewrite H. reflexivity. Qed.

Lemma keydown_state (code : string) (w : World) :
  ship (state (keydown code w)) = ship (state w)
  /\ bullets (state (keydown code w)) = bullets (state w)
  /\ asteroids (state (keydown code w)) = asteroids (state w)
  /\ score (state (keydown code w)) = score (state w)
  /\ gameOver (state (keydown code w)) = gameOver (state w).
Proof.
  unfold keydown. cbv zeta.
  destruct (String.eqb code "KeyF"); destruct (String.eqb code "KeyS");
    repeat split; reflexivity.
Qed.

Lemma keydown_keys (code : string) (w : World) :
  keys (keydown code w) = <[code := true]> (keys w).
Proof.
  unfold keydown. cbv zeta.
  destruct (String.eqb code "KeyF"); destruct (String.eqb code "KeyS");
    reflexivity.
Qed.

(** C1.  Once [gameOver] is true, and for as long as no restart is asked for
    (the R key is not held and is not pressed), every sequence of animation
    frames and key events leaves the ship, the bullets, the asteroids and the
    score as they were, and [gameOver] true.  [loop], the only caller of
    [step], calls it only while [gameOver] is false (line 345): a frame only
    stamps [lastTime], so that no physics, no spawning and no collision takes
    place, and when there is a ship [render] draws it and the frame
    completes.  A call of [reset] ends the latch: it clears [gameOver].  What
    happens when a restart is asked for is the matter of C2. *)
Theorem game_over_latch (E : Env) (evs : list Event) (w : World)
    (Hover : gameOver (state w) = true)
    (Hkey : key "KeyR" w = false)
    (Hevs : Forall (fun ev => ev <> KeyDown "KeyR") evs) :
  exists w' : World,
    run E evs w = Some w'
    /\ ship (state w') = ship (state w)
    /\ bullets (state w') = bullets (state w)
    /\ asteroids (state w') = asteroids (state w)
    /\ score (state w') = score (state w)
    /\ gameOver (state w') = true
    /\ restart_requested w' = false
    /\ gameOver (state (reset E w')) = false
    /\ (forall t : Q,
          loop E t w' = Some (upd (set_lastTime t) w')
          /\ (forall s : Ship.t,
                ship (state w) = Some s ->
                frame E t w' = Some (upd (set_lastTime t) w'))).
Proof.
  assert (H : exists w' : World,
             run E evs w = Some w'
             /\ ship (state w') = ship (state w)
             /\ bullets (state w') = bullets (state w)
             /\ asteroids (state w') = asteroids (state w)
             /\ score (state w') = score (state w)
             /\ gameOver (state w') = true
             /\ restart_requested w' = false).
  { revert w Hover Hkey.
    induction Hevs as [|ev evs Hev _ IH]; intros w Hover Hkey.
    - exists w. repeat split; try reflexivity; [exact Hover|].
      unfold restart_requested. rewrite Hkey. reflexivity.
    - destruct ev as [code|code|t]; simpl.
      + destruct (keydown_state code w) as (H1 & H2 & H3 & H4 & H5).
        destruct (IH (keydown code w)) as (w' & Hrun & ? & ? & ? & ? & ? & ?).
        { congruence. }
        { unfold key. rewrite keydown_keys, lookup_insert_ne; [exact Hkey|].
          intros ->. apply Hev. reflexivity. }
        exists w'. repeat split; congruence.
      + destruct (IH (keyup code w)) as (w' & Hrun & ? & ? & ? & ? & ? & ?).
        { exact Hover. }
        { unfold key, keyup. simpl.
          destruct (decide (code = "KeyR")) as [->|Hne].
          - rewrite lookup_insert_eq. reflexivity.
          - rewrite lookup_insert_ne by exact Hne. exact Hkey. }
        exists w'. repeat split; assumption.
      + rewrite (loop_game_over E t w Hover). simpl.
        destruct (IH (upd (set_lastTime t) w))
          as (w' & Hrun & ? & ? & ? & ? & ? & ?);
          [exact Hover | exact Hkey |].
        exists w'. repeat split; assumption. }
  destruct H as (w' & Hrun & Hs & Hb & Ha & Hsc & Hover' & Hreq).
  exists w'. split; [exact Hrun|]. split; [exact Hs|]. split; [exact Hb|].
  split; [exact Ha|]. split; [exact Hsc|]. split; [exact Hover'|].
  split; [exact Hreq|]. split; [reflexivity|].
  intros t. split; [apply loop_game_over; exact Hover'|].
  intros s Hship. unfold frame. rewrite (loop_game_over E t w' Hover').
  simpl. unfold render. setters. rewrite Hs, Hship. reflexivity.
Qed.

Lemma game_over_latch_witness :
  exists w' : World,
    run sampleEnv [Frame 160; KeyDown "ArrowUp"; Frame 200; KeyUp "ArrowUp"]
      w_over = Some w'
    /\ ship (state w') = ship (state w_over)
    /\ bullets (state w') = bullets (state w_over)
    /\ asteroids (state w') = asteroids (state w_over)
    /\ score (state w') = score (state w_over)
    /\ gameOver (state w') = true
    /\ restart_requested w' = false
    /\ gameOver (state (reset sampleEnv w')) = false
    /\ (forall t : Q,
          loop sampleEnv t w' = Some (upd (set_lastTime t) w')
          /\ (forall s : Ship.t,
                ship (state w_over) = Some s ->
                frame sampleEnv t w' = Some (upd (set_lastTime t) w'))).
Proof.
  apply (game_over_latch sampleEnv
           [Frame 160; KeyDown "ArrowUp"; Frame 200; KeyUp "ArrowUp"] w_over).
  - vm_compute. reflexivity.
  - vm_compute. reflexivity.
  - repeat constructor; discriminate.
Defined.

(** The latch is in the driver, not in [step], which has no game-over test
    of its own.  Were [step] called on the sample game-over world, with the
    up arrow held, it would still accelerate and move the ship and move the
    asteroids; [loop] makes no such call. *)
Lemma step_runs_after_game_over :
  gameOver (state w_over_thrust) = true
  /\ restart_requested w_over_thrust = false
  /\ exists (w' : World) (s s' : Ship.t) (a a' : Asteroid.t),
       step sampleEnv 16 w_over_thrust = Some w'
       /\ ship (state w_over_thrust) = Some s
       /\ ship (state w') = Some s'
       /\ Ship.y s == 50 /\ Ship.vy s == 0 /\ Ship.thrust s == 0
       /\ Ship.y s' == 49.3350656 /\ Ship.vy s' == -0.0415584
       /\ Ship.thrust s' == 1
       /\ asteroids (state w_over_thrust) !! 0%nat = Some a
       /\ asteroids (state w') !! 0%nat = Some a'
       /\ Asteroid.y a == 10.4 /\ Asteroid.y a' == 20.48.
Proof.
  split; [vm_compute; reflexivity|]. split; [vm_compute; reflexivity|].
  eexists. eexists. eexists. eexists. eexists.
  do 12 (split; [vm_compute; reflexivity|]).
  vm_compute; reflexivity.
Qed.

(** [step], called on a game-over world with R held, does call [reset]: the
    rest of the call runs on the world [reset] made. *)
Lemma step_restarts_when_called (E : Env) (dt : Q) (w : World) (s : Ship.t) :
  ship (state w) = Some s ->
  restart_requested w = true ->
  exists wf : World,
    fire E (upd (set_ship (Some (controls E dt w s))) w) = Some wf
    /\ step E dt w
       = after_restart_check E dt true (controls E dt w s) (reset E wf)
    /\ gameOver (state (reset E wf)) = false.
Proof.
  intros Hs Hr. unfold step. rewrite Hs. cbv zeta.
  destruct (fire_spec E (upd (set_ship (Some (controls E dt w s))) w)
              (controls E dt w s)) as (wf & bs & c & Hf & Hstf & Gf);
    [reflexivity|].
  exists wf. split; [exact Hf|]. rewrite Hf. simpl.
  assert (Hrr : restart_requested wf = true).
  { rewrite <- Hr. unfold restart_requested, key. destruct Gf as (-> & _ & _).
    rewrite Hstf. reflexivity. }
  rewrite Hrr. split; reflexivity.
Qed.

(** C2, what the code does: a restart request is never seen.  With R held
    and [gameOver] true, [loop] does not call [step]: the frame only records
    its time stamp, [reset] is not called and [gameOver] stays true. *)
Theorem restart_request_ignored_by_loop (E : Env) (t : Q) (w : World)
    (Hreq : restart_requested w = true) :
  loop E t w = Some (upd (set_lastTime t) w)
  /\ gameOver (state (upd (set_lastTime t) w)) = true
  /\ restart_requested (upd (set_lastTime t) w) = true.
Proof.
  unfold restart_requested in Hreq. apply andb_true_iff in Hreq.
  destruct Hreq as [Hk Hg].
  split; [apply loop_game_over; exact Hg|]. split; [exact Hg|].
  unfold restart_requested. simpl. unfold key in *. simpl.
  rewrite Hk, Hg. reflexivity.
Qed.

Lemma restart_request_ignored_by_loop_witness :
  loop sampleEnv 160 w_over_restart
  = Some (upd (set_lastTime 160) w_over_restart)
  /\ gameOver (state (upd (set_lastTime 160) w_over_restart)) = true
  /\ restart_requested (upd (set_lastTime 160) w_over_restart) = true.
Proof.
  apply (restart_request_ignored_by_loop sampleEnv 160 w_over_restart).
  vm_compute. reflexivity.
Defined.

(** The failing input of C2, run: after the game is over the player presses
    R and two frames go by; the asteroids that ended the game are still
    there, the flag is still set, the request is still pending. *)
Lemma restart_key_has_no_effect :
  w_over = default w_over (run sampleEnv two_frames (boot sampleEnv))
  /\ gameOver (state w_over) = true
  /\ exists w' : World,
       run sampleEnv [KeyDown "KeyR"; Frame 160; Frame 200] w_over = Some w'
       /\ key "KeyR" w' = true
       /\ gameOver (state w') = true
       /\ length (asteroids (state w')) = 4%nat
       /\ asteroids (state w') = asteroids (state w_over).
Proof.
  split; [vm_compute; reflexivity|]. split; [vm_compute; reflexivity|].
  eexists. do 4 (split; [vm_compute; reflexivity|]).
  vm_compute; reflexivity.
Qed.

(** ** Radii and awards *)

Lemma award_lower_bound (a : Asteroid.t) (b : Z) :
  Asteroid.radius a <= inject_Z b -> (100 - b <= award a)%Z.
Proof.
  intros Hr. unfold award. rewrite <- (Qfloor_Z (100 - b)).
  apply Qfloor_resp_le. unfold Z.sub.
  rewrite inject_Z_plus, inject_Z_opp.
  change (inject_Z 100) with 100. lra.
Qed.

Lemma asteroids_updated_radii (E : Env) (dt : Q) (P : Q -> Prop)
    (l : list Asteroid.t) :
  Forall (fun a => P (Asteroid.radius a)) l ->
  Forall (fun a => P (Asteroid.radius a)) (asteroids_updated E dt l).
Proof.
  unfold asteroids_updated. induction 1 as [|a l Ha _ IH]; simpl.
  - constructor.
  - destruct (negb _); [constructor|]; assumption.
Qed.

Lemma fragment_radius (E : Env) (a c : Asteroid.t) :
  fragment_of E a c -> Asteroid.radius c = Asteroid.radius a * 0.55.
Proof. intros [k ->]. reflexivity. Qed.

(** One call of [step] that does not reset leaves the spawn interval alone
    or, on a spawn tick, makes it [Math.max(500, spawnInterval * 0.98)]. *)
Lemma step_spawnInterval (E : Env) (dt : Q) (w w' : World) :
  step E dt w = Some w' ->
  restart_requested w = false ->
  spawnInterval (state w') = spawnInterval (state w)
  \/ spawnInterval (state w') = Qmax 500 (spawnInterval (state w) * 0.98).
Proof.
  intros Hstep Hno.
  destruct (ship (state w)) as [s|] eqn:Hs.
  - destruct (step_spec E dt w s Hs) as (w1 & w_in & Hrun & Hout & Hin).
    rewrite Hrun in Hstep. injection Hstep as ->. rewrite Hno in Hin.
    destruct Hin as (bs & c & Hst & _).
    destruct Hout as (spawned & surv & destroyed & kids & Hcase & _).
    rewrite Hst in Hcase. simpl in Hcase.
    destruct Hcase as [(_ & Hsi & _) | (a & k & _ & _ & Hsi & _)]; auto.
  - unfold step in Hstep. rewrite Hs in Hstep. injection Hstep as <-.
    left. reflexivity.
Qed.

(** ** The ship stays within the wrap margins *)

Lemma wrap_axis_cases (v lim : Q) :
  0 <= lim ->
  (v < -50 -> wrap_axis v lim = lim + 50)
  /\ (lim + 50 < v -> wrap_axis v lim = -50)
  /\ (-50 <= v /\ v <= lim + 50 -> wrap_axis v lim = v).
Proof.
  intros Hlim. unfold wrap_axis. cbv zeta. repeat split.
  - intros Hv. apply Qltb_lt in Hv as Hb. rewrite Hb.
    assert (Hb2 : Qltb (lim + 50) (lim + 50) = false)
      by (apply Qltb_ge; lra).
    rewrite Hb2. reflexivity.
  - intros Hv.
    assert (Hb : Qltb v (-50) = false) by (apply Qltb_ge; lra).
    rewrite Hb. apply Qltb_lt in Hv. rewrite Hv. reflexivity.
  - intros [Hlo Hhi].
    assert (Hb : Qltb v (-50) = false) by (apply Qltb_ge; lra).
    rewrite Hb.
    assert (Hb2 : Qltb (lim + 50) v = false) by (apply Qltb_ge; lra).
    rewrite Hb2. reflexivity.
Qed.

Lemma wrap_axis_range (v lim : Q) :
  0 <= lim -> -50 <= wrap_axis v lim /\ wrap_axis v lim <= lim + 50.
Proof.
  intros Hlim. destruct (wrap_axis_cases v lim Hlim) as (H1 & H2 & H3).
  destruct (Qlt_le_dec v (-50)) as [Hlt|Hge].
  - rewrite (H1 Hlt). lra.
  - destruct (Qlt_le_dec (lim + 50) v) as [Hgt|Hle].
    + rewrite (H2 Hgt). lra.
    + rewrite (H3 (conj Hge Hle)). lra.
Qed.

(** C7.  On a canvas of non-negative size, every call of [step] on a world
    that has a ship, for every [dt] (hence for those in [[0, 40]]), runs to
    the end and leaves a ship whose [x] is in [[-50, width + 50]] and whose
    [y] is in [[-50, height + 50]].  When the call does not restart, that
    position is the integrated position passed once through the wrap, and the
    wrap sends a coordinate below -50 to the far margin, one above the far
    margin to -50, and leaves any other where it is. *)
Theorem ship_wrap_invariant (E : Env) (dt : Q) (w : World) (s : Ship.t)
    (Hsize : client_size_ok E) (Hship : ship (state w) = Some s) :
  exists (w' : World) (s' : Ship.t),
    step E dt w = Some w'
    /\ ship (state w') = Some s'
    /\ (-50 <= Ship.x s' /\ Ship.x s' <= clientWidth E + 50)
    /\ (-50 <= Ship.y s' /\ Ship.y s' <= clientHeight E + 50)
    /\ (restart_requested w = false ->
        Ship.x s'
        = wrap_axis (Ship.x (physics dt (controls E dt w s))) (clientWidth E)
        /\ Ship.y s'
           = wrap_axis (Ship.y (physics dt (controls E dt w s)))
               (clientHeight E))
    /\ (forall v lim : Q, 0 <= lim ->
        (v < -50 -> wrap_axis v lim = lim + 50)
        /\ (lim + 50 < v -> wrap_axis v lim = -50)
        /\ (-50 <= v /\ v <= lim + 50 -> wrap_axis v lim = v)).
Proof.
  destruct Hsize as [Hw Hh].
  destruct (step_spec E dt w s Hship) as (w' & w_in & Hrun & Hout & Hin).
  destruct Hout as (spawned & surv & destroyed & kids & _ & _ & _ & _ & _ & _
                    & _ & _ & _ & _ & Hs' & _).
  destruct (restart_requested w).
  - destruct Hin as (wf & _ & ->). simpl in Hs'.
    exists w'. eexists. split; [exact Hrun|]. split; [exact Hs'|]. simpl.
    split; [split; [|]|split; [split|split]].
    + apply Qle_shift_div_l; lra.
    + apply Qle_shift_div_r; lra.
    + apply Qle_shift_div_l; lra.
    + apply Qle_shift_div_r; lra.
    + discriminate.
    + apply wrap_axis_cases.
  - destruct Hin as (bs & c & Hst & _). rewrite Hst in Hs'. simpl in Hs'.
    exists w'. eexists. split; [exact Hrun|]. split; [exact Hs'|].
    split; [apply wrap_axis_range; exact Hw|].
    split; [apply wrap_axis_range; exact Hh|].
    split; [intros _; split; reflexivity|].
    apply wrap_axis_cases.
Qed.

Lemma sample_size_ok : client_size_ok sampleEnv.
Proof. split; simpl; lra. Defined.

Lemma ship_wrap_invariant_witness :
  exists (w' : World) (s' : Ship.t),
    step sampleEnv 16 w_thrust = Some w'
    /\ ship (state w') = Some s'
    /\ (-50 <= Ship.x s' /\ Ship.x s' <= clientWidth sampleEnv + 50)
    /\ (-50 <= Ship.y s' /\ Ship.y s' <= clientHeight sampleEnv + 50)
    /\ (restart_requested w_thrust = false ->
        Ship.x s'
        = wrap_axis
            (Ship.x (physics 16 (controls sampleEnv 16 w_thrust
                                   (Ship.mk (200 / 2) (100 / 2) 0 0
                                      (- 3.14159 / 2) 14 0))))
            (clientWidth sampleEnv)
        /\ Ship.y s'
           = wrap_axis
               (Ship.y (physics 16 (controls sampleEnv 16 w_thrust
                                      (Ship.mk (200 / 2) (100 / 2) 0 0
                                         (- 3.14159 / 2) 14 0))))
               (clientHeight sampleEnv))
    /\ (forall v lim : Q, 0 <= lim ->
        (v < -50 -> wrap_axis v lim = lim + 50)
        /\ (lim + 50 < v -> wrap_axis v lim = -50)
        /\ (-50 <= v /\ v <= lim + 50 -> wrap_axis v lim = v)).
Proof.
  apply (ship_wrap_invariant sampleEnv 16 w_thrust
           (Ship.mk (200 / 2) (100 / 2) 0 0 (- 3.14159 / 2) 14 0)
           sample_size_ok).
  vm_compute. reflexivity.
Defined.

(** A ship that crosses the left margin during a [step] of 16 ms comes out
    at the right margin, 50 units past the canvas. *)
Lemma ship_crossing_left_margin :
  exists (w' : World) (s' : Ship.t),
    step sampleEnv 16 w_edge = Some w'
    /\ ship (state w') = Some s'
    /\ Ship.x (physics 16 (Ship.mk (-45) 50 (-1) 0 0 14 0)) == -60.984
    /\ Ship.x s' == 250 /\ Ship.y s' == 50.
Proof.
  eexists. eexists.
  do 4 (split; [vm_compute; reflexivity|]). vm_compute; reflexivity.
Qed.

(** ** The floor of the spawn interval *)

(** Every call of [step], restart or not, keeps the spawn interval at 500 or
    more. *)
Lemma step_keeps_floor (E : Env) (dt : Q) (w w' : World) :
  500 <= spawnInterval (state w) ->
  step E dt w = Some w' ->
  500 <= spawnInterval (state w').
Proof.
  intros Hfloor Hstep.
  destruct (ship (state w)) as [s|] eqn:Hs.
  - destruct (step_spec E dt w s Hs) as (w1 & w_in & Hrun & Hout & Hin).
    rewrite Hrun in Hstep. injection Hstep as ->.
    destruct Hout as (spawned & surv & destroyed & kids & Hcase & _).
    assert (Hw_in : 500 <= spawnInterval (state w_in)).
    { destruct (restart_requested w).
      - destruct Hin as (wf & _ & ->). simpl.
        destruct (spawnFastToggle wf); unfold SPAWN_INTERVAL_BASE; lra.
      - destruct Hin as (bs & c & -> & _). exact Hfloor. }
    destruct Hcase as [(_ & -> & _) | (a & k & _ & _ & -> & _)];
      [exact Hw_in | apply Qmax_500_ge].
  - unfold step in Hstep. rewrite Hs in Hstep. injection Hstep as <-.
    exact Hfloor.
Qed.

(** ** The worlds of a game *)

Lemma spawn_game_radius (E : Env) (k : nat) :
  random_upto_one E ->
  game_radius (floorQ (Math_random E k * (44 - 18) + 18)).
Proof.
  intros HR. destruct (HR k) as [H0 H1].
  destruct (spawn_radius_range _ H0 H1) as [Hlo Hhi].
  unfold game_radius. split; lra.
Qed.

Lemma award_of_game_radius (a : Asteroid.t) :
  game_radius (Asteroid.radius a) -> (56 <= award a <= 85)%Z.
Proof.
  intros [Hlo Hhi]. split.
  - pose proof (award_lower_bound a 44 Hhi). lia.
  - unfold award.
    pose proof (floorQ_lt_bound (100 - Asteroid.radius a) 86) as H.
    unfold floorQ in H. rewrite <- Zle_Qle in H. apply H.
    change (inject_Z 86) with 86. lra.
Qed.

Lemma total_award_bounds (l : list Asteroid.t) :
  Forall (fun a => game_radius (Asteroid.radius a)) l ->
  (56 * Z.of_nat (length l) <= total_award l
   /\ total_award l <= 85 * Z.of_nat (length l))%Z.
Proof.
  induction 1 as [|a l Ha _ IH].
  - simpl. lia.
  - pose proof (award_of_game_radius a Ha).
    change (total_award (a :: l)) with (award a + total_award l)%Z.
    rewrite length_cons, Nat2Z.inj_succ. lia.
Qed.

(** A tick keeps the radii in the range of the game. *)
Lemma tick_outcome_game_radii (E : Env) (dt : Q) (s : Ship.t) (w w' : World) :
  random_upto_one E ->
  tick_outcome E dt s w w' ->
  Forall (fun a => game_radius (Asteroid.radius a)) (asteroids (state w)) ->
  Forall (fun a => game_radius (Asteroid.radius a)) (asteroids (state w'))
  /\ exists destroyed : list Asteroid.t,
       score (state w') = (score (state w) + total_award destroyed)%Z
       /\ Forall (fun a => game_radius (Asteroid.radius a)) destroyed.
Proof.
  intros HR (spawned & surv & destroyed & kids & Hcase & Hsub & Hperm & Has
             & Hkids & _ & _ & _ & Hscore & _) Hw.
  assert (Hsp : Forall (fun a => game_radius (Asteroid.radius a)) spawned).
  { destruct Hcase as [(-> & _) | (a & k & -> & Hr & _)]; [constructor|].
    constructor; [|constructor]. simpl. rewrite Hr.
    apply spawn_game_radius. exact HR. }
  assert (Hmid : Forall (fun a => game_radius (Asteroid.radius a))
                   (asteroids_updated E dt (asteroids (state w) ++ spawned))).
  { apply (asteroids_updated_radii E dt game_radius).
    apply Forall_app. split; assumption. }
  rewrite <- Hperm in Hmid. apply Forall_app in Hmid.
  destruct Hmid as [Hsurv Hdes].
  split; [|exists destroyed; split; assumption].
  rewrite Has. apply Forall_app. split; [exact Hsurv|].
  eapply Forall_impl; [exact Hkids|].
  intros c (a & Hin & Hbig & Hf). simpl.
  rewrite (fragment_radius E a c Hf).
  rewrite Forall_forall in Hdes. destruct (Hdes a Hin) as [Hlo Hhi].
  unfold splits in Hbig. apply Qltb_lt in Hbig.
  unfold game_radius. split; lra.
Qed.

Lemma bullets_updated_alive (dt : Q) (l : list Bullet.t) :
  Forall (fun b => 0 < Bullet.life b) (bullets_updated dt l).
Proof.
  unfold bullets_updated. induction l as [|b l IH]; simpl.
  - constructor.
  - destruct (alive (move_bullet dt b)) eqn:Hb; [|exact IH].
    constructor; [|exact IH]. apply Qltb_lt. exact Hb.
Qed.

Lemma sample_random_upto_one : random_upto_one sampleEnv.
Proof. intros n. simpl. split; lra. Qed.

(** One call of [step] keeps a world well formed, and when it does not reset
    the score does not go down. *)
Lemma step_well_formed (E : Env) (dt : Q) (w w' : World) :
  random_upto_one E ->
  well_formed w -> step E dt w = Some w' ->
  well_formed w'
  /\ (restart_requested w = false ->
      (score (state w) <= score (state w'))%Z).
Proof.
  intros HR ((s & Hs) & Hb & Hr & Hsc & Hfl) Hstep.
  pose proof (step_keeps_floor E dt w w' Hfl Hstep) as Hfl'.
  destruct (step_spec E dt w s Hs) as (w1 & w_in & Hrun & Hout & Hin).
  rewrite Hrun in Hstep. injection Hstep as ->.
  assert (Hw_in : Forall (fun a => game_radius (Asteroid.radius a))
                    (asteroids (state w_in))
                  /\ (0 <= score (state w_in))%Z
                  /\ (restart_requested w = false ->
                      score (state w_in) = score (state w))
                  /\ exists s0 : Ship.t, ship (state w_in) = Some s0).
  { destruct (restart_requested w).
    - destruct Hin as (wf & _ & ->). simpl.
      split; [constructor|]. split; [lia|]. split; [discriminate|].
      eexists. reflexivity.
    - destruct Hin as (bs & c & Hst & _). rewrite Hst. setters.
      split; [exact Hr|]. split; [exact Hsc|]. split; [reflexivity|].
      eexists. reflexivity. }
  destruct Hw_in as (Hr_in & Hsc_in & Hsame & (s0 & Hs0)).
  destruct (tick_outcome_game_radii E dt _ w_in w' HR Hout Hr_in)
    as [Hr' (destroyed & Heq & Hd)].
  pose proof (total_award_bounds destroyed Hd) as Haw.
  destruct Hout as (spawned & surv & destroyed' & kids & _ & _ & _ & _ & _ & _
                    & Hbs & _ & _ & _ & Hs' & _).
  split; [split; [|split; [|split; [|split]]]|].
  - exists s0. rewrite Hs'. exact Hs0.
  - apply (Forall_sublist _ _ _ Hbs). apply bullets_updated_alive.
  - exact Hr'.
  - lia.
  - exact Hfl'.
  - intros Hno. rewrite Heq, (Hsame Hno). lia.
Qed.

Lemma loop_well_formed (E : Env) (t : Q) (w w' : World) :
  random_upto_one E ->
  well_formed w -> loop E t w = Some w' ->
  well_formed w' /\ (score (state w) <= score (state w'))%Z.
Proof.
  intros HR Hw Hloop. unfold loop in Hloop. cbv zeta in Hloop.
  change (gameOver (state (upd (set_lastTime t) w)))
    with (gameOver (state w)) in Hloop.
  destruct (gameOver (state w)) eqn:Hover.
  - injection Hloop as <-. split; [exact Hw | setters; lia].
  - destruct (step_well_formed E _ (upd (set_lastTime t) w) w' HR Hw Hloop)
      as [Hw' Hsc].
    split; [exact Hw'|]. apply Hsc.
    unfold restart_requested. setters. rewrite Hover. apply andb_false_r.
Qed.

Lemma reset_well_formed (E : Env) (w : World) : well_formed (reset E w).
Proof.
  unfold well_formed. simpl.
  split; [eexists; reflexivity|]. split; [constructor|].
  split; [constructor|]. split; [lia|].
  destruct (spawnFastToggle w); unfold SPAWN_INTERVAL_BASE; lra.
Qed.

Lemma spawnAsteroid_well_formed (E : Env) (w : World) :
  random_upto_one E -> well_formed w -> well_formed (spawnAsteroid E w).
Proof.
  intros HR (Hs & Hb & Hr & Hsc & Hfl).
  destruct (spawnAsteroid_spec E w) as (a & k & Hst & Hrad & _).
  unfold well_formed. rewrite Hst. setters.
  split; [exact Hs|]. split; [exact Hb|]. split; [|split; assumption].
  apply Forall_app. split; [exact Hr|].
  constructor; [|constructor]. rewrite Hrad. apply spawn_game_radius. exact HR.
Qed.

Lemma keydown_well_formed (code : string) (w : World) :
  well_formed w -> well_formed (keydown code w).
Proof.
  intros (Hs & Hb & Hr & Hsc & Hfl). unfold well_formed.
  destruct (keydown_state code w) as (-> & -> & -> & -> & _).
  split; [exact Hs|]. split; [exact Hb|]. split; [exact Hr|].
  split; [exact Hsc|].
  unfold keydown. cbv zeta.
  destruct (String.eqb code "KeyF"); destruct (String.eqb code "KeyS");
    setters; try exact Hfl;
    destruct (negb (spawnFastToggle w)); unfold SPAWN_INTERVAL_BASE; lra.
Qed.

(** Every world of a game is well formed. *)
Lemma played_well_formed (w : World) : played w -> well_formed w.
Proof.
  induction 1 as [E w|E w HR _ IH|code w _ IH|code w _ IH
                  |E dt w w' HR _ IH Hstep|E t w w' HR _ IH Hloop].
  - apply reset_well_formed.
  - apply spawnAsteroid_well_formed; assumption.
  - apply keydown_well_formed. exact IH.
  - exact IH.
  - apply (step_well_formed E dt w w' HR IH Hstep).
  - apply (loop_well_formed E t w w' HR IH Hloop).
Qed.

Lemma steps_no_reset_well_formed (w w' : World) :
  steps_no_reset random_upto_one w w' ->
  well_formed w ->
  well_formed w' /\ (score (state w) <= score (state w'))%Z.
Proof.
  intros Hsteps.
  induction Hsteps as [w|ks w w' _ IH|E dt w w1 w' HR Hno Hstep _ IH];
    intros Hw.
  - split; [exact Hw | lia].
  - apply IH. exact Hw.
  - destruct (step_well_formed E dt w w1 HR Hw Hstep) as [Hw1 Hsc].
    destruct (IH Hw1) as [Hw' Hle]. split; [exact Hw'|].
    specialize (Hsc Hno). lia.
Qed.

Lemma w_fight_played : played w_fight.
Proof.
  unfold w_fight, boot. apply played_keydown.
  do 4 (apply played_spawn; [exact sample_random_upto_one|]).
  apply played_reset.
Qed.

(** A call of [step] that does not restart, field by field: [wf] is the
    world the fire lines leave, and the rest is decided by the collision of
    the call. *)
Lemma step_no_restart (E : Env) (dt : Q) (w : World) (s : Ship.t) :
  ship (state w) = Some s ->
  restart_requested w = false ->
  exists (w' wf : World) (kids : list Asteroid.t),
    fire E (upd (set_ship (Some (controls E dt w s))) w) = Some wf
    /\ step E dt w = Some w'
    /\ asteroids (state w') = survivors (step_collision E dt s w wf) ++ kids
    /\ fragments_made E (rev (shot_down (step_collision E dt s w wf))) kids
    /\ bullets (state w') = bullets_left (step_collision E dt s w wf)
    /\ score (state w')
       = (score (state w)
          + total_award (shot_down (step_collision E dt s w wf)))%Z
    /\ spawnInterval (state w')
       = (if Qltb (spawnInterval (state w))
               (performance_now E (nowCalls wf) - lastSpawn (state w))
          then Qmax 500 (spawnInterval (state w) * 0.98)
          else spawnInterval (state w)).
Proof.
  intros Hs Hno.
  destruct (step_exact E dt w s Hs)
    as (w' & wf & kids & bs & c0 & Hf & Hstf & Gf & Hrun & Hout).
  destruct (Hout _ _ eq_refl eq_refl) as (Hst & Hk & _ & _).
  exists w', wf, kids. split; [exact Hf|]. split; [exact Hrun|].
  split; [rewrite Hst; reflexivity|]. split; [exact Hk|].
  split; [rewrite Hst; reflexivity|].
  destruct (before_collisions_exact E dt (entering_updates E dt s w wf))
    as (spawned & Hst3 & _ & _ & _).
  split.
  - rewrite Hst. setters. rewrite Hst3. setters.
    unfold entering_updates. rewrite Hno. setters. rewrite Hstf. reflexivity.
  - rewrite Hst. setters. rewrite Hst3. setters.
    unfold entering_updates, spawn_due. rewrite Hno. setters.
    rewrite Hstf. reflexivity.
Qed.

(** The fragments of a pass come, two by two, from the asteroids shot down
    that split. *)
Lemma fragments_made_spec (E : Env) (ds kids : list Asteroid.t) :
  fragments_made E ds kids ->
  Forall (fun c => exists a, a ∈ ds /\ splits a = true /\ fragment_of E a c)
    kids
  /\ length kids = (2 * length (List.filter splits ds))%nat.
Proof.
  revert kids. induction ds as [|a ds IH]; intros kids; simpl.
  - intros ->. split; [constructor | reflexivity].
  - destruct (splits a) eqn:Hbig.
    + intros (c1 & c2 & rest & -> & F1 & F2 & Hrest).
      destruct (IH rest Hrest) as [Hall Hlen]. split.
      * constructor; [exists a; split; [left|split; assumption]|].
        constructor; [exists a; split; [left|split; assumption]|].
        eapply Forall_impl; [exact Hall|].
        intros c (a' & Hin & Hb & Hf). exists a'.
        split; [right; exact Hin | split; assumption].
      * simpl. rewrite Hlen. lia.
    + intros Hk. destruct (IH kids Hk) as [Hall Hlen]. split; [|exact Hlen].
      eapply Forall_impl; [exact Hall|].
      intros c (a' & Hin & Hb & Hf). exists a'.
      split; [right; exact Hin | split; assumption].
Qed.

(** ** The spawn interval and the spawn tick *)

(** C5, as amended.  The spawn tick fires exactly when the clock reads more
    than the spawn interval past the last spawn; it then pushes one asteroid
    and replaces the interval by [Math.max(500, spawnInterval * 0.98)], which
    is never below 500, never above an interval of 500 or more and below any
    interval above 500; when it does not fire it leaves the interval alone.
    So, starting at 500 or more, across any sequence of [step] calls without
    a reset the interval stays at 500 or more and never increases.  The
    interval is assigned in two other places: [reset] sets it to 1200, or to
    500 when the fast-spawn toggle is on, and the F key flips the toggle and
    sets it to 500 or 1200, whatever it had decayed to.  In every world of a
    game it is 500 or more. *)
Theorem spawn_interval_floor_and_decay (w w' : World)
    (Hfloor : 500 <= spawnInterval (state w))
    (Hsteps : steps_no_reset any_env w w') :
  500 <= spawnInterval (state w')
  /\ spawnInterval (state w') <= spawnInterval (state w)
  /\ (forall (E : Env) (w0 : World),
        spawnInterval (state (spawn_tick E w0))
        = (if spawn_due E w0
           then Qmax 500 (spawnInterval (state w0) * 0.98)
           else spawnInterval (state w0))
        /\ length (asteroids (state (spawn_tick E w0)))
           = (length (asteroids (state w0))
              + (if spawn_due E w0 then 1 else 0))%nat)
  /\ (forall (E : Env) (dt : Q) (w0 : World) (s : Ship.t),
        ship (state w0) = Some s ->
        restart_requested w0 = false ->
        exists w1 wf : World,
          fire E (upd (set_ship (Some (controls E dt w0 s))) w0) = Some wf
          /\ step E dt w0 = Some w1
          /\ spawnInterval (state w1)
             = (if Qltb (spawnInterval (state w0))
                     (performance_now E (nowCalls wf) - lastSpawn (state w0))
                then Qmax 500 (spawnInterval (state w0) * 0.98)
                else spawnInterval (state w0)))
  /\ (forall x : Q,
        500 <= Qmax 500 (x * 0.98)
        /\ (500 <= x -> Qmax 500 (x * 0.98) <= x)
        /\ (500 < x -> Qmax 500 (x * 0.98) < x))
  /\ (forall (E : Env) (w0 : World),
        spawnInterval (state (reset E w0))
        = (if spawnFastToggle w0 then 500 else SPAWN_INTERVAL_BASE)
        /\ spawnInterval (state (keydown "KeyF" w0))
           = (if spawnFastToggle w0 then SPAWN_INTERVAL_BASE else 500))
  /\ (forall w0 : World, played w0 -> 500 <= spawnInterval (state w0)).
Proof.
  split; [|split; [|split; [|split; [|split; [|split]]]]].
  - induction Hsteps as [w|ks w w' _ IH|E dt w w1 w' _ Hno Hstep _ IH].
    + exact Hfloor.
    + apply IH. exact Hfloor.
    + apply IH. exact (step_keeps_floor E dt w w1 Hfloor Hstep).
  - induction Hsteps as [w|ks w w' _ IH|E dt w w1 w' _ Hno Hstep _ IH].
    + lra.
    + apply IH. exact Hfloor.
    + pose proof (step_keeps_floor E dt w w1 Hfloor Hstep) as Hfloor1.
      specialize (IH Hfloor1).
      destruct (step_spawnInterval E dt w w1 Hstep Hno) as [Heq|Heq].
      * rewrite Heq in IH. exact IH.
      * pose proof (Qmax_500_decay _ Hfloor) as Hdecay.
        rewrite <- Heq in Hdecay. lra.
  - intros E w0. destruct (spawn_tick_exact E w0) as (spawned & Hst & Hsp & _).
    rewrite Hst. setters. split; [reflexivity|].
    rewrite length_app. destruct (spawn_due E w0).
    + destruct Hsp as (a & k & -> & _). reflexivity.
    + subst spawned. reflexivity.
  - intros E dt w0 s Hs Hno.
    destruct (step_no_restart E dt w0 s Hs Hno)
      as (w1 & wf & kids & Hf & Hrun & _ & _ & _ & _ & Hsi).
    exists w1, wf. split; [exact Hf|]. split; [exact Hrun | exact Hsi].
  - intros x. split; [apply Qmax_500_ge|].
    split; [apply Qmax_500_decay|].
    intros Hx. apply Q.max_lub_lt; lra.
  - intros E w0. split; [reflexivity|].
    unfold keydown. simpl. destruct (spawnFastToggle w0); reflexivity.
  - intros w0 Hw0. apply (played_well_formed w0 Hw0).
Qed.

Lemma spawn_interval_floor_and_decay_witness :
  500 <= spawnInterval (state w_slow)
  /\ spawnInterval (state w_slow) <= spawnInterval (state (boot slowEnv))
  /\ (forall (E : Env) (w0 : World),
        spawnInterval (state (spawn_tick E w0))
        = (if spawn_due E w0
           then Qmax 500 (spawnInterval (state w0) * 0.98)
           else spawnInterval (state w0))
        /\ length (asteroids (state (spawn_tick E w0)))
           = (length (asteroids (state w0))
              + (if spawn_due E w0 then 1 else 0))%nat)
  /\ (forall (E : Env) (dt : Q) (w0 : World) (s : Ship.t),
        ship (state w0) = Some s ->
        restart_requested w0 = false ->
        exists w1 wf : World,
          fire E (upd (set_ship (Some (controls E dt w0 s))) w0) = Some wf
          /\ step E dt w0 = Some w1
          /\ spawnInterval (state w1)
             = (if Qltb (spawnInterval (state w0))
                     (performance_now E (nowCalls wf) - lastSpawn (state w0))
                then Qmax 500 (spawnInterval (state w0) * 0.98)
                else spawnInterval (state w0)))
  /\ (forall x : Q,
        500 <= Qmax 500 (x * 0.98)
        /\ (500 <= x -> Qmax 500 (x * 0.98) <= x)
        /\ (500 < x -> Qmax 500 (x * 0.98) < x))
  /\ (forall (E : Env) (w0 : World),
        spawnInterval (state (reset E w0))
        = (if spawnFastToggle w0 then 500 else SPAWN_INTERVAL_BASE)
        /\ spawnInterval (state (keydown "KeyF" w0))
           = (if spawnFastToggle w0 then SPAWN_INTERVAL_BASE else 500))
  /\ (forall w0 : World, played w0 -> 500 <= spawnInterval (state w0)).
Proof.
  apply (spawn_interval_floor_and_decay (boot slowEnv) w_slow).
  - vm_compute. discriminate.
  - apply (snr_step any_env slowEnv 40 (boot slowEnv) w_slow w_slow).
    + exact I.
    + vm_compute. reflexivity.
    + vm_compute. reflexivity.
    + apply snr_done.
Defined.

(** On the slow machine the first [step] of the sample game is a spawn tick:
    the interval goes from 1200 to 1176 and a fifth asteroid is pushed. *)
Lemma spawn_interval_first_tick :
  spawnInterval (state (boot slowEnv)) == 1200
  /\ spawnInterval (state w_slow) == 1176
  /\ length (asteroids (state (boot slowEnv))) = 4%nat
  /\ length (asteroids (state w_slow)) = 5%nat.
Proof.
  split; [vm_compute; reflexivity|]. split; [vm_compute; reflexivity|].
  split; vm_compute; reflexivity.
Qed.

(** C5, as stated, fails: the interval does increase without a reset.  In
    the world [w_slow] a spawn tick has brought it down to 1176.  The player
    presses F (the interval is 500), releases it and presses it again: the
    interval is 1200, above 500 and above 1176, and nothing else of the state
    has changed, so no reset has taken place. *)
Lemma fast_spawn_key_raises_interval :
  spawnInterval (state w_slow) == 1176
  /\ spawnInterval (state (keydown "KeyF" w_slow)) == 500
  /\ spawnInterval (state w_slow_FF) == 1200
  /\ ~ spawnInterval (state w_slow_FF) <= spawnInterval (state w_slow)
  /\ ~ spawnInterval (state w_slow_FF)
       <= spawnInterval (state (keydown "KeyF" w_slow))
  /\ state w_slow_FF = set_spawnInterval 1200 (state w_slow)
  /\ length (asteroids (state w_slow_FF)) = 5%nat.
Proof.
  split; [vm_compute; reflexivity|]. split; [vm_compute; reflexivity|].
  split; [vm_compute; reflexivity|].
  split; [intros H; vm_compute in H; apply H; reflexivity|].
  split; [intros H; vm_compute in H; apply H; reflexivity|].
  split; vm_compute; reflexivity.
Qed.

(** ** The score *)

Lemma sample_random_in_unit : random_in_unit sampleEnv.
Proof. intros n. simpl. split; lra. Qed.

(** C4.  From any world of a game, across any sequence of [step] calls in
    which [reset] is not called, the score does not decrease.  In a call of
    [step] that does not reset, the score grows by the sum, over the
    asteroids shot down in the collision of that call, of
    [Math.floor(100 - a.radius)], and by nothing else.  The asteroids shot
    down are asteroids a bullet was over; no bullet that is left is over an
    asteroid that is left; one bullet goes for each asteroid shot down; and a
    bullet over an asteroid never goes without an asteroid being shot down.
    A hit on an asteroid of radius 30 adds exactly 70. *)
Theorem score_monotone (w w' : World)
    (Hplayed : played w)
    (Hsteps : steps_no_reset random_upto_one w w') :
  (score (state w) <= score (state w'))%Z
  /\ (forall (E : Env) (dt : Q) (w0 : World) (s : Ship.t),
        ship (state w0) = Some s ->
        restart_requested w0 = false ->
        exists (w1 wf : World) (kids : list Asteroid.t),
          fire E (upd (set_ship (Some (controls E dt w0 s))) w0) = Some wf
          /\ step E dt w0 = Some w1
          /\ score (state w1)
             = (score (state w0)
                + total_award (shot_down (step_collision E dt s w0 wf)))%Z
          /\ bullets (state w1) = bullets_left (step_collision E dt s w0 wf)
          /\ asteroids (state w1)
             = survivors (step_collision E dt s w0 wf) ++ kids)
  /\ (forall (l : list Asteroid.t) (bs : list Bullet.t),
        Forall (fun a => exists b, b ∈ bs /\ hits a b = true)
          (shot_down (collide_fn l bs))
        /\ Forall (fun a => Forall (fun b => hits a b = false)
                              (bullets_left (collide_fn l bs)))
             (survivors (collide_fn l bs))
        /\ survivors (collide_fn l bs) ++ shot_down (collide_fn l bs) ≡ₚ l
        /\ (length (bullets_left (collide_fn l bs))
            + length (shot_down (collide_fn l bs)) = length bs)%nat
        /\ (forall (a : Asteroid.t) (b : Bullet.t),
              a ∈ l -> b ∈ bs -> hits a b = true ->
              shot_down (collide_fn l bs) <> []))
  /\ total_award [] = 0%Z
  /\ (forall (a : Asteroid.t) (l : list Asteroid.t),
        total_award (a :: l)
        = (Qfloor (100 - Asteroid.radius a) + total_award l)%Z)
  /\ (forall (E : Env) (i j : nat) (a : Asteroid.t) (w0 : World),
        score (state (resolve_hit E i j a w0))
        = (score (state w0) + Qfloor (100 - Asteroid.radius a))%Z)
  /\ (forall a : Asteroid.t,
        Asteroid.radius a == 30 -> Qfloor (100 - Asteroid.radius a) = 70%Z).
Proof.
  split; [|split; [|split; [|split; [|split; [|split]]]]].
  - apply (steps_no_reset_well_formed w w' Hsteps).
    apply played_well_formed. exact Hplayed.
  - intros E dt w0 s Hs Hno.
    destruct (step_no_restart E dt w0 s Hs Hno)
      as (w1 & wf & kids & Hf & Hrun & Has & _ & Hbs & Hsc & _).
    exists w1, wf, kids. repeat split; assumption.
  - intros l bs.
    destruct (collide_fn_hits l bs) as [H1 H2].
    destruct (collide_fn_partition l bs) as (_ & _ & H3 & _ & H4).
    split; [exact H1|]. split; [exact H2|]. split; [exact H3|].
    split; [exact H4|]. intros a b. apply collide_fn_some.
  - reflexivity.
  - intros a l. reflexivity.
  - intros E i j a w0.
    destruct (resolve_hit_spec E i j a w0) as (kids & Hst & _).
    rewrite Hst. reflexivity.
  - intros a Ha. rewrite Ha. reflexivity.
Qed.

Lemma score_monotone_witness :
  (score (state w_fight) <= score (state w_fight'))%Z
  /\ (forall (E : Env) (dt : Q) (w0 : World) (s : Ship.t),
        ship (state w0) = Some s ->
        restart_requested w0 = false ->
        exists (w1 wf : World) (kids : list Asteroid.t),
          fire E (upd (set_ship (Some (controls E dt w0 s))) w0) = Some wf
          /\ step E dt w0 = Some w1
          /\ score (state w1)
             = (score (state w0)
                + total_award (shot_down (step_collision E dt s w0 wf)))%Z
          /\ bullets (state w1) = bullets_left (step_collision E dt s w0 wf)
          /\ asteroids (state w1)
             = survivors (step_collision E dt s w0 wf) ++ kids)
  /\ (forall (l : list Asteroid.t) (bs : list Bullet.t),
        Forall (fun a => exists b, b ∈ bs /\ hits a b = true)
          (shot_down (collide_fn l bs))
        /\ Forall (fun a => Forall (fun b => hits a b = false)
                              (bullets_left (collide_fn l bs)))
             (survivors (collide_fn l bs))
        /\ survivors (collide_fn l bs) ++ shot_down (collide_fn l bs) ≡ₚ l
        /\ (length (bullets_left (collide_fn l bs))
            + length (shot_down (collide_fn l bs)) = length bs)%nat
        /\ (forall (a : Asteroid.t) (b : Bullet.t),
              a ∈ l -> b ∈ bs -> hits a b = true ->
              shot_down (collide_fn l bs) <> []))
  /\ total_award [] = 0%Z
  /\ (forall (a : Asteroid.t) (l : list Asteroid.t),
        total_award (a :: l)
        = (Qfloor (100 - Asteroid.radius a) + total_award l)%Z)
  /\ (forall (E : Env) (i j : nat) (a : Asteroid.t) (w0 : World),
        score (state (resolve_hit E i j a w0))
        = (score (state w0) + Qfloor (100 - Asteroid.radius a))%Z)
  /\ (forall a : Asteroid.t,
        Asteroid.radius a == 30 -> Qfloor (100 - Asteroid.radius a) = 70%Z).
Proof.
  apply (score_monotone w_fight w_fight' w_fight_played).
  apply (snr_step random_upto_one sampleEnv 8 w_fight w_fight' w_fight').
  - exact sample_random_upto_one.
  - vm_compute. reflexivity.
  - vm_compute. reflexivity.
  - apply snr_done.
Defined.

(** In that call the bullet is fired and destroys an asteroid of radius 31:
    the score goes from 0 to 69, the bullet is gone again, and of the four
    asteroids three are left with two fragments after them. *)
Lemma score_after_first_hit :
  score (state w_fight) = 0%Z
  /\ score (state w_fight') = 69%Z
  /\ length (bullets (state w_fight')) = 0%nat
  /\ length (asteroids (state w_fight)) = 4%nat
  /\ length (asteroids (state w_fight')) = 5%nat.
Proof.
  do 4 (split; [vm_compute; reflexivity|]). vm_compute; reflexivity.
Qed.

(** ** Fragmentation *)

Lemma rand_at_range (E : Env) (k : nat) (lo hi : Q) :
  random_in_unit E -> lo <= hi ->
  lo <= rand_at E k lo hi /\ rand_at E k lo hi <= hi.
Proof.
  intros HR Hlh. destruct (HR k) as [H0 H1]. unfold rand_at.
  split; nra.
Qed.

Lemma fragment_of_jitter (E : Env) (a c : Asteroid.t) :
  random_in_unit E -> fragment_of E a c -> jittered_fragment a c.
Proof.
  intros HR [k ->]. unfold jittered_fragment. simpl.
  assert (H10 : -10 <= 10) by lra. assert (H1 : -1 <= 1) by lra.
  pose proof (rand_at_range E k (-10) 10 HR H10).
  pose proof (rand_at_range E (k + 1) (-10) 10 HR H10).
  pose proof (rand_at_range E (k + 2) (-1) 1 HR H1).
  pose proof (rand_at_range E (k + 3) (-1) 1 HR H1).
  split; [reflexivity|]. repeat split; lra.
Qed.

(** C6.  When a bullet destroys the asteroid [a] at index [i], [a] is taken
    out of the array.  If its radius exceeds 26, exactly two fragments are
    appended, each of 0.55 times its radius, within 10 units of its position
    and within 1 unit of its velocity on each axis; if its radius is at most
    26, nothing is appended.  So a radius of 40 gives two fragments of radius
    22 and a radius of 20 gives none. *)
Theorem fragmentation (E : Env) (i j : nat) (a : Asteroid.t) (w : World)
    (Hrandom : random_in_unit E)
    (Hparent : asteroids (state w) !! i = Some a) :
  let rest := take i (asteroids (state w)) ++ drop (S i) (asteroids (state w)) in
  let w' := resolve_hit E i j a w in
  asteroids (state w) = take i (asteroids (state w)) ++ a
                        :: drop (S i) (asteroids (state w))
  /\ (26 < Asteroid.radius a ->
      exists c1 c2 : Asteroid.t,
        asteroids (state w') = rest ++ [c1; c2]
        /\ jittered_fragment a c1 /\ jittered_fragment a c2)
  /\ (Asteroid.radius a <= 26 -> asteroids (state w') = rest)
  /\ (Asteroid.radius a == 40 ->
      exists c1 c2 : Asteroid.t,
        asteroids (state w') = rest ++ [c1; c2]
        /\ Asteroid.radius c1 == 22 /\ Asteroid.radius c2 == 22)
  /\ (Asteroid.radius a == 20 -> asteroids (state w') = rest).
Proof.
  cbv zeta.
  destruct (resolve_hit_spec E i j a w) as (kids & Hst & Hkids & _).
  assert (Has : asteroids (state (resolve_hit E i j a w))
                = (take i (asteroids (state w))
                   ++ drop (S i) (asteroids (state w))) ++ kids).
  { rewrite Hst. simpl. rewrite delete_take_drop. reflexivity. }
  assert (Hbig : 26 < Asteroid.radius a ->
            exists c1 c2 : Asteroid.t,
              asteroids (state (resolve_hit E i j a w))
              = (take i (asteroids (state w))
                 ++ drop (S i) (asteroids (state w))) ++ [c1; c2]
              /\ jittered_fragment a c1 /\ jittered_fragment a c2).
  { intros Hr. apply Qltb_lt in Hr. rewrite Hr in Hkids.
    destruct Hkids as (c1 & c2 & -> & F1 & F2). exists c1, c2.
    split; [exact Has|].
    split; apply (fragment_of_jitter E); assumption. }
  assert (Hsmall : Asteroid.radius a <= 26 ->
            asteroids (state (resolve_hit E i j a w))
            = take i (asteroids (state w))
              ++ drop (S i) (asteroids (state w))).
  { intros Hr. apply Qltb_ge in Hr. rewrite Hr in Hkids. subst kids.
    rewrite Has, app_nil_r. reflexivity. }
  split; [symmetry; apply take_drop_middle; exact Hparent|].
  split; [exact Hbig|]. split; [exact Hsmall|]. split.
  - intros H40. destruct Hbig as (c1 & c2 & Heq & J1 & J2); [lra|].
    exists c1, c2. split; [exact Heq|].
    destruct J1 as [R1 _], J2 as [R2 _]. rewrite R1, R2. split; lra.
  - intros H20. apply Hsmall. lra.
Qed.

Lemma fragmentation_witness :
  let rest := take 0 (asteroids (state w_big))
              ++ drop 1 (asteroids (state w_big)) in
  let w' := resolve_hit sampleEnv 0 0
              (Asteroid.mk 100 100 0.5 0.5 40 0 0.01) w_big in
  asteroids (state w_big)
  = take 0 (asteroids (state w_big))
    ++ Asteroid.mk 100 100 0.5 0.5 40 0 0.01
       :: drop 1 (asteroids (state w_big))
  /\ (26 < 40 ->
      exists c1 c2 : Asteroid.t,
        asteroids (state w') = rest ++ [c1; c2]
        /\ jittered_fragment (Asteroid.mk 100 100 0.5 0.5 40 0 0.01) c1
        /\ jittered_fragment (Asteroid.mk 100 100 0.5 0.5 40 0 0.01) c2)
  /\ (40 <= 26 -> asteroids (state w') = rest)
  /\ (40 == 40 ->
      exists c1 c2 : Asteroid.t,
        asteroids (state w') = rest ++ [c1; c2]
        /\ Asteroid.radius c1 == 22 /\ Asteroid.radius c2 == 22)
  /\ (40 == 20 -> asteroids (state w') = rest).
Proof.
  apply (fragmentation sampleEnv 0 0 (Asteroid.mk 100 100 0.5 0.5 40 0 0.01)
           w_big sample_random_in_unit).
  reflexivity.
Defined.

(** The two examples of the specification, run through the whole collision
    pass: the asteroid of radius 40 is replaced by two of radius 22 and gives
    60 points, the one of radius 20 disappears and gives 80. *)
Lemma fragmentation_examples :
  (exists (w' : World) (c1 c2 : Asteroid.t),
     collide_bullets sampleEnv w_big = Some w'
     /\ asteroids (state w') = [c1; c2]
     /\ Asteroid.radius c1 == 22 /\ Asteroid.radius c2 == 22
     /\ bullets (state w') = [] /\ score (state w') = 60%Z)
  /\ (exists w' : World,
        collide_bullets sampleEnv w_small = Some w'
        /\ asteroids (state w') = []
        /\ bullets (state w') = [] /\ score (state w') = 80%Z).
Proof.
  split.
  - eexists. eexists. eexists.
    do 5 (split; [vm_compute; reflexivity|]). vm_compute; reflexivity.
  - eexists.
    do 3 (split; [vm_compute; reflexivity|]). vm_compute; reflexivity.
Qed.

(** ** Removal while iterating *)

(** C9.  None of the loops of [step] reads an array past its end, so [step]
    and each of its passes run to the end on every world.  The two update
    loops compute the moved entities without those that expired or drifted
    away.  In the bullet-asteroid pass the scan for an asteroid stops at the
    first bullet, from the last index down, that hits it; the asteroids that
    were there are split between those that survive, in their order, and
    those destroyed, one bullet being removed for each destroyed asteroid;
    the bullets left are bullets that were there, in their order; the score
    grows by the awards of the destroyed asteroids, and two fragments are
    appended for each destroyed asteroid that splits. *)
Theorem collisions_once_and_in_bounds (E : Env) (dt : Q) (s : Ship.t)
    (w : World) :
  (exists w1 : World,
     update_bullets dt w = Some w1
     /\ bullets (state w1) = bullets_updated dt (bullets (state w)))
  /\ (exists w2 : World,
        update_asteroids E dt w = Some w2
        /\ asteroids (state w2) = asteroids_updated E dt (asteroids (state w)))
  /\ (forall a : Asteroid.t,
        exists r : option nat,
          scan_bullets a (length (bullets (state w))) (bullets (state w))
          = Some r
          /\ match r with
             | Some j =>
                 (j < length (bullets (state w)))%nat
                 /\ (exists b, bullets (state w) !! j = Some b
                               /\ hits a b = true)
                 /\ forall j' b',
                      (j < j' < length (bullets (state w)))%nat ->
                      bullets (state w) !! j' = Some b' -> hits a b' = false
             | None =>
                 forall j b,
                   (j < length (bullets (state w)))%nat ->
                   bullets (state w) !! j = Some b -> hits a b = false
             end)
  /\ (exists (w' : World) (surv destroyed kids : list Asteroid.t),
        collide_bullets E w = Some w'
        /\ asteroids (state w') = surv ++ kids
        /\ surv `sublist_of` asteroids (state w)
        /\ surv ++ destroyed ≡ₚ asteroids (state w)
        /\ bullets (state w') `sublist_of` bullets (state w)
        /\ (length (bullets (state w')) + length destroyed
            = length (bullets (state w)))%nat
        /\ length kids = (2 * length (List.filter splits destroyed))%nat
        /\ score (state w') = (score (state w) + total_award destroyed)%Z)
  /\ (exists w3 : World, collide_ship s w = Some w3)
  /\ (exists w4 : World, step E dt w = Some w4).
Proof.
  split; [|split; [|split; [|split; [|split]]]].
  - eexists. split; [apply update_bullets_spec | reflexivity].
  - eexists. split; [apply update_asteroids_spec | reflexivity].
  - intros a. apply scan_bullets_spec. lia.
  - destruct (collide_bullets_spec E w)
      as (w' & surv & destroyed & kids & Hrun & Hst & _ & _ & Hsub & Hperm
          & Hbs & Hcount & _ & Hklen).
    exists w', surv, destroyed, kids.
    split; [exact Hrun|]. split; [rewrite Hst; reflexivity|].
    split; [exact Hsub|]. split; [exact Hperm|]. split; [exact Hbs|].
    split; [exact Hcount|]. split; [exact Hklen|].
    rewrite Hst. reflexivity.
  - eexists. apply collide_ship_spec.
  - apply step_total.
Qed.

(** ** Radii of the asteroids of the game *)

(** [rand] in binary64.  With the largest double below 1 for the draw,
    [rand(18, 44)] is exactly 44: the product, [26 - 26 * 2^-53], rounds to
    the double below 26, and adding 18 rounds up to 44.  With a minimum of 0
    nothing is added and the result stays below the maximum. *)
Lemma rand_binary64_reaches_max :
  (largest_draw <? 1)%float = true
  /\ rand_binary64 largest_draw 18 44 = 44%float
  /\ (rand_binary64 largest_draw 0 4 <? 4)%float = true.
Proof.
  split; [vm_compute; reflexivity|]. split; vm_compute; reflexivity.
Qed.

Lemma top_random_upto_one : random_upto_one topEnv.
Proof. intros n. simpl. destruct (n =? 4)%nat; split; lra. Qed.

Lemma small_radius_facts (E : Env) (a : Asteroid.t) :
  Asteroid.radius a <= 44 ->
  (56 <= award a)%Z
  /\ forall c : Asteroid.t,
       fragment_of E a c ->
       Asteroid.radius c <= 0.55 * 44
       /\ Asteroid.radius c < 26
       /\ forall w0 : World, fragments E c w0 = w0.
Proof.
  intros Hr. split.
  - pose proof (award_lower_bound a 44 Hr). lia.
  - intros c Hf. rewrite (fragment_radius E a c Hf).
    split; [lra|]. split; [lra|]. intros w0. unfold fragments.
    rewrite (fragment_radius E a c Hf).
    assert (Hb : Qltb 26 (Asteroid.radius a * 0.55) = false)
      by (apply Qltb_ge; lra).
    rewrite Hb. reflexivity.
Qed.

(** The asteroids among which the collision of a call of [step] chooses are
    those of the world, moved, and the one the spawn tick may have pushed:
    their radii are radii of the game. *)
Lemma step_collision_radii (E : Env) (dt : Q) (s : Ship.t) (w wf : World)
    (bs : list Bullet.t) (c0 : option Q) :
  random_upto_one E ->
  state wf
  = set_shotCooldown c0
      (set_bullets bs (set_ship (Some (controls E dt w s)) (state w))) ->
  Forall (fun a => game_radius (Asteroid.radius a)) (asteroids (state w)) ->
  Forall (fun a => game_radius (Asteroid.radius a))
    (asteroids (state (before_collisions E dt
                         (entering_updates E dt s w wf))))
  /\ Forall (fun a => game_radius (Asteroid.radius a))
       (survivors (step_collision E dt s w wf))
  /\ Forall (fun a => game_radius (Asteroid.radius a))
       (shot_down (step_collision E dt s w wf)).
Proof.
  intros HR Hstf Hw. unfold step_collision. cbv zeta.
  set (w_in := entering_updates E dt s w wf).
  assert (Hin : Forall (fun a => game_radius (Asteroid.radius a))
                  (asteroids (state w_in))).
  { subst w_in. unfold entering_updates. destruct (restart_requested w).
    - simpl. constructor.
    - setters. rewrite Hstf. exact Hw. }
  destruct (before_collisions_exact E dt w_in) as (spawned & Hst3 & Hsp & _).
  assert (Hmid : Forall (fun a => game_radius (Asteroid.radius a))
                   (asteroids (state (before_collisions E dt w_in)))).
  { rewrite Hst3. setters.
    apply (asteroids_updated_radii E dt game_radius).
    apply Forall_app. split; [exact Hin|].
    destruct (spawn_due E w_in).
    - destruct Hsp as (a & k & -> & Hr). constructor; [|constructor].
      rewrite Hr. apply spawn_game_radius. exact HR.
    - subst spawned. constructor. }
  destruct (collide_fn_partition
              (asteroids (state (before_collisions E dt w_in)))
              (bullets (state (before_collisions E dt w_in))))
    as (H1 & H2 & _).
  split; [exact Hmid|].
  split; [exact (Forall_sublist _ _ _ H1 Hmid)
         | exact (Forall_sublist _ _ _ H2 Hmid)].
Qed.

(** C10, as amended.  In every world of a game, every asteroid has a radius
    of at most 44 and would give a positive award.  [spawnAsteroid] pushes
    an asteroid whose radius is between 18 and 44.  A fragment of an asteroid
    of radius at most 44 has a radius of at most 0.55 * 44, which is below
    26, so destroying it makes no fragments.  And in every call of [step]
    the asteroids among which the collision pass chooses (those of the
    world, moved, and the one the spawn tick may have pushed) have radii of
    at most 44, and each asteroid shot down gives a positive award, of 56 at
    least. *)
Theorem asteroid_radii_and_no_cascade (w : World) (Hplayed : played w) :
  Forall (fun a => Asteroid.radius a <= 44 /\ (0 < award a)%Z)
    (asteroids (state w))
  /\ (forall (E : Env) (w0 : World),
        random_upto_one E ->
        exists a : Asteroid.t,
          asteroids (state (spawnAsteroid E w0)) = asteroids (state w0) ++ [a]
          /\ 18 <= Asteroid.radius a /\ Asteroid.radius a <= 44)
  /\ (forall (E : Env) (a c : Asteroid.t),
        Asteroid.radius a <= 44 -> fragment_of E a c ->
        Asteroid.radius c <= 0.55 * 44
        /\ Asteroid.radius c < 26
        /\ forall w0 : World, fragments E c w0 = w0)
  /\ (forall (E : Env) (dt : Q) (s : Ship.t),
        random_upto_one E ->
        ship (state w) = Some s ->
        exists w' wf : World,
          fire E (upd (set_ship (Some (controls E dt w s))) w) = Some wf
          /\ step E dt w = Some w'
          /\ Forall (fun a => Asteroid.radius a <= 44)
               (asteroids (state (before_collisions E dt
                                    (entering_updates E dt s w wf))))
          /\ Forall (fun a => Asteroid.radius a <= 44 /\ (56 <= award a)%Z)
               (shot_down (step_collision E dt s w wf))
          /\ (restart_requested w = false ->
              score (state w')
              = (score (state w)
                 + total_award (shot_down (step_collision E dt s w wf)))%Z)).
Proof.
  destruct (played_well_formed w Hplayed) as (_ & _ & Hw & _).
  split; [|split; [|split]].
  - eapply Forall_impl; [exact Hw|]. intros a [_ Ha].
    split; [exact Ha|]. pose proof (award_lower_bound a 44 Ha). lia.
  - intros E w0 HR. destruct (spawnAsteroid_spec E w0) as (a & k & Hst & Hr & _).
    exists a. split; [rewrite Hst; reflexivity|]. rewrite Hr.
    destruct (HR k) as [H0 H1]. apply spawn_radius_range; assumption.
  - intros E a c Ha Hf. apply (small_radius_facts E a Ha). exact Hf.
  - intros E dt s HR Hs.
    destruct (step_exact E dt w s Hs)
      as (w' & wf & kids & bs & c0 & Hf & Hstf & Gf & Hrun & Hout).
    destruct (step_collision_radii E dt s w wf bs c0 HR Hstf Hw)
      as (Hmid & _ & Hd).
    exists w', wf. split; [exact Hf|]. split; [exact Hrun|].
    split; [|split].
    + eapply Forall_impl; [exact Hmid|]. intros a [_ Ha]. exact Ha.
    + eapply Forall_impl; [exact Hd|]. intros a [_ Ha].
      split; [exact Ha | apply (small_radius_facts E a Ha)].
    + intros Hno.
      destruct (step_no_restart E dt w s Hs Hno)
        as (w1 & wf1 & kids1 & Hf1 & Hrun1 & _ & _ & _ & Hsc & _).
      rewrite Hf in Hf1. injection Hf1 as <-.
      rewrite Hrun in Hrun1. injection Hrun1 as <-. exact Hsc.
Qed.

Lemma asteroid_radii_and_no_cascade_witness :
  Forall (fun a => Asteroid.radius a <= 44 /\ (0 < award a)%Z)
    (asteroids (state w_fight))
  /\ (forall (E : Env) (w0 : World),
        random_upto_one E ->
        exists a : Asteroid.t,
          asteroids (state (spawnAsteroid E w0)) = asteroids (state w0) ++ [a]
          /\ 18 <= Asteroid.radius a /\ Asteroid.radius a <= 44)
  /\ (forall (E : Env) (a c : Asteroid.t),
        Asteroid.radius a <= 44 -> fragment_of E a c ->
        Asteroid.radius c <= 0.55 * 44
        /\ Asteroid.radius c < 26
        /\ forall w0 : World, fragments E c w0 = w0)
  /\ (forall (E : Env) (dt : Q) (s : Ship.t),
        random_upto_one E ->
        ship (state w_fight) = Some s ->
        exists w' wf : World,
          fire E (upd (set_ship (Some (controls E dt w_fight s))) w_fight)
          = Some wf
          /\ step E dt w_fight = Some w'
          /\ Forall (fun a => Asteroid.radius a <= 44)
               (asteroids (state (before_collisions E dt
                                    (entering_updates E dt s w_fight wf))))
          /\ Forall (fun a => Asteroid.radius a <= 44 /\ (56 <= award a)%Z)
               (shot_down (step_collision E dt s w_fight wf))
          /\ (restart_requested w_fight = false ->
              score (state w')
              = (score (state w_fight)
                 + total_award
                     (shot_down (step_collision E dt s w_fight wf)))%Z)).
Proof.
  exact (asteroid_radii_and_no_cascade w_fight w_fight_played).
Defined.

(** C10, as stated, fails: the radius can be 44.  In binary64, with the
    largest double below 1 for the draw, [rand(18, 44)] is exactly 44, and
    [Math.floor] leaves it.  In the exact arithmetic of the model that is the
    value at a draw of 1: in the world [w_top], made by [reset] and one call
    of [spawnAsteroid] whose radius draw acts as 1, the asteroid has radius
    44, not 43 or less, and destroying it gives 56 points. *)
Lemma spawn_radius_reaches_44 :
  (largest_draw <? 1)%float = true
  /\ rand_binary64 largest_draw 18 44 = 44%float
  /\ played w_top
  /\ exists a : Asteroid.t,
       asteroids (state w_top) = [a]
       /\ Asteroid.radius a == 44
       /\ ~ Asteroid.radius a <= 43
       /\ award a = 56%Z.
Proof.
  destruct rand_binary64_reaches_max as (H1 & H2 & _).
  split; [exact H1|]. split; [exact H2|]. split.
  { unfold w_top. apply played_spawn; [exact top_random_upto_one|].
    apply played_reset. }
  eexists. split; [vm_compute; reflexivity|].
  split; [vm_compute; reflexivity|].
  split; [intros H; vm_compute in H; apply H; reflexivity|].
  vm_compute. reflexivity.
Qed.

(** * Further properties of the code *)

(** ** [rand] *)

(** [rand(min, max)] with [min <= max] returns a number from [min] to [max],
    [max] included: it is the value [rand_at] of the next draw, it makes one
    call of [Math.random] and leaves the state alone.  The upper end is
    reached in doubles: [rand(18, 44)] is exactly 44 at the largest draw
    below 1. *)
Theorem rand_in_range (E : Env) (min max : Q) (w : World)
    (Hrandom : random_upto_one E) (Hle : min <= max) :
  min <= (rand E min max w).1
  /\ (rand E min max w).1 <= max
  /\ (rand E min max w).1 = rand_at E (randomCalls w) min max
  /\ state (rand E min max w).2 = state w
  /\ randomCalls (rand E min max w).2 = S (randomCalls w)
  /\ rand_binary64 largest_draw 18 44 = 44%float.
Proof.
  destruct (Hrandom (randomCalls w)) as [H0 H1].
  unfold rand, random, rand_at. simpl.
  split; [nra|]. split; [nra|]. split; [reflexivity|].
  split; [reflexivity|]. split; [reflexivity|].
  apply rand_binary64_reaches_max.
Qed.

Lemma rand_in_range_witness :
  18 <= (rand topEnv 18 44 (initial topEnv)).1
  /\ (rand topEnv 18 44 (initial topEnv)).1 <= 44
  /\ (rand topEnv 18 44 (initial topEnv)).1
     = rand_at topEnv (randomCalls (initial topEnv)) 18 44
  /\ state (rand topEnv 18 44 (initial topEnv)).2 = state (initial topEnv)
  /\ randomCalls (rand topEnv 18 44 (initial topEnv)).2
     = S (randomCalls (initial topEnv))
  /\ rand_binary64 largest_draw 18 44 = 44%float.
Proof.
  apply (rand_in_range topEnv 18 44 (initial topEnv) top_random_upto_one).
  lra.
Defined.

(** ** Where [spawnAsteroid] puts an asteroid *)

(** The draw for the edge has to be below 1, as [Math.random()] is:
    [rand(0, 4)] multiplies it by 4 and adds 0, which is exact in doubles, so
    the edge is one of 0, 1, 2, 3.  The other draws are taken from 0 to 1. *)
Lemma spawnAsteroid_placement (E : Env) (w : World) :
  random_upto_one E -> Math_random E (randomCalls w) < 1 ->
  client_size_ok E ->
  exists a : Asteroid.t,
    state (spawnAsteroid E w)
    = set_asteroids (asteroids (state w) ++ [a]) (state w)
    /\ enters_from_edge E a
    /\ (18 <= Asteroid.radius a /\ Asteroid.radius a <= 44)
    /\ (-0.02 <= Asteroid.rotSpeed a /\ Asteroid.rotSpeed a <= 0.02)
    /\ randomCalls (spawnAsteroid E w) = (randomCalls w + 7)%nat
    /\ same_globals w (spawnAsteroid E w)
    /\ nowCalls (spawnAsteroid E w) = nowCalls w.
Proof.
  intros HR He1 [Hcw Hch].
  destruct (HR (randomCalls w)) as [He0 _].
  pose proof (spawn_edge_range _ He0 He1) as Hedge.
  destruct (HR (S (randomCalls w))) as [Ha0 Ha1].
  destruct (HR (S (S (randomCalls w)))) as [Hb0 Hb1].
  destruct (HR (S (S (S (randomCalls w))))) as [Hc0 Hc1].
  destruct (HR (S (S (S (S (randomCalls w)))))) as [Hr0 Hr1].
  pose proof (spawn_radius_range _ Hr0 Hr1) as Hrad.
  destruct (HR (S (S (S (S (S (S (randomCalls w)))))))) as [Hs0 Hs1].
  unfold spawnAsteroid, rand, random. cbv zeta.
  destruct (Qfloor _ =? 0)%Z eqn:E0; destruct (Qfloor _ =? 1)%Z eqn:E1;
    destruct (Qfloor _ =? 2)%Z eqn:E2; destruct (Qfloor _ =? 3)%Z eqn:E3;
    rewrite ?Z.eqb_eq, ?Z.eqb_neq in *; try lia;
    (eexists; split; [reflexivity|]; simpl;
     split; [unfold enters_from_edge; simpl|];
     [first [ left; split; [reflexivity|]; repeat split; nra
            | right; left; split; [reflexivity|]; repeat split; nra
            | right; right; left; split; [reflexivity|]; repeat split; nra
            | right; right; right; split; [reflexivity|]; repeat split; nra ]
     | split; [exact Hrad|]; split; [split; nra|];
       split; [lia|]; split; [repeat split; reflexivity | reflexivity] ]).
Qed.

(** [spawnAsteroid] appends one asteroid and changes nothing else of the
    state.  The asteroid is 40 units outside one of the four edges, at a
    place along that edge, and moves into the canvas: 0.3 to 1.1 per ms
    across the edge and at most 0.6 along it.  Its radius is from 18 to 44,
    its spin at most 0.02 either way, and seven draws are used. *)
Theorem spawned_asteroid_enters_from_edge (E : Env) (w : World)
    (Hrandom : random_upto_one E)
    (Hedge : Math_random E (randomCalls w) < 1)
    (Hsize : client_size_ok E) :
  exists a : Asteroid.t,
    state (spawnAsteroid E w)
    = set_asteroids (asteroids (state w) ++ [a]) (state w)
    /\ enters_from_edge E a
    /\ (18 <= Asteroid.radius a /\ Asteroid.radius a <= 44)
    /\ (-0.02 <= Asteroid.rotSpeed a /\ Asteroid.rotSpeed a <= 0.02)
    /\ randomCalls (spawnAsteroid E w) = (randomCalls w + 7)%nat.
Proof.
  destruct (spawnAsteroid_placement E w Hrandom Hedge Hsize)
    as (a & H1 & H2 & H3 & H4 & H5 & _).
  exists a. repeat split; try assumption; try apply H2; try apply H3;
    apply H4.
Qed.

Lemma sample_edge_draws (n : nat) : Math_random sampleEnv n < 1.
Proof. simpl. lra. Qed.

Lemma spawned_asteroid_enters_from_edge_witness :
  exists a : Asteroid.t,
    state (spawnAsteroid sampleEnv (initial sampleEnv))
    = set_asteroids (asteroids (state (initial sampleEnv)) ++ [a])
        (state (initial sampleEnv))
    /\ enters_from_edge sampleEnv a
    /\ (18 <= Asteroid.radius a /\ Asteroid.radius a <= 44)
    /\ (-0.02 <= Asteroid.rotSpeed a /\ Asteroid.rotSpeed a <= 0.02)
    /\ randomCalls (spawnAsteroid sampleEnv (initial sampleEnv))
       = (randomCalls (initial sampleEnv) + 7)%nat.
Proof.
  exact (spawned_asteroid_enters_from_edge sampleEnv (initial sampleEnv)
           sample_random_upto_one (sample_edge_draws _) sample_size_ok).
Defined.

(** ** [reset()] followed by four calls of [spawnAsteroid()] *)

(** What lines 113 and 352 make of any world, on a canvas of non-negative
    size: the ship [reset] made is at the centre, there is no bullet, the
    score is 0, the game is not over, the spawn interval is at its reset
    value, and the array holds exactly four asteroids, each outside an edge
    and heading in, with a radius from 18 to 44.  The time of the last shot
    and [lastTime] are those of the world before; 28 draws have been made and
    the clock has been read once. *)
Theorem reset_then_four_spawns (E : Env) (w0 : World)
    (Hrandom : random_upto_one E)
    (Hedges : forall i : nat,
        (i < 4)%nat -> Math_random E (randomCalls w0 + 7 * i) < 1)
    (Hsize : client_size_ok E) :
  let w := spawnAsteroid E (spawnAsteroid E (spawnAsteroid E (spawnAsteroid E
             (reset E w0)))) in
  ship (state w) = Some (fresh_ship E)
  /\ bullets (state w) = []
  /\ length (asteroids (state w)) = 4%nat
  /\ Forall (fun a => enters_from_edge E a
                      /\ 18 <= Asteroid.radius a /\ Asteroid.radius a <= 44)
       (asteroids (state w))
  /\ score (state w) = 0%Z
  /\ gameOver (state w) = false
  /\ spawnInterval (state w)
     = (if spawnFastToggle w0 then 500 else SPAWN_INTERVAL_BASE)
  /\ lastSpawn (state w) = performance_now E (nowCalls w0)
  /\ _shotCooldown (state w) = _shotCooldown (state w0)
  /\ lastTime (state w) = lastTime (state w0)
  /\ randomCalls w = (randomCalls w0 + 28)%nat
  /\ nowCalls w = S (nowCalls w0).
Proof.
  cbv zeta.
  assert (Hr0 : randomCalls (reset E w0) = randomCalls w0) by reflexivity.
  destruct (spawnAsteroid_placement E (reset E w0) Hrandom)
    as (a1 & H1 & P1 & R1 & _ & C1 & _ & N1);
    [rewrite Hr0; replace (randomCalls w0) with (randomCalls w0 + 7 * 0)%nat
       by lia; apply Hedges; lia | exact Hsize |].
  destruct (spawnAsteroid_placement E (spawnAsteroid E (reset E w0)) Hrandom)
    as (a2 & H2 & P2 & R2 & _ & C2 & _ & N2);
    [rewrite C1, Hr0; apply (Hedges 1%nat); lia | exact Hsize |].
  destruct (spawnAsteroid_placement E
              (spawnAsteroid E (spawnAsteroid E (reset E w0))) Hrandom)
    as (a3 & H3 & P3 & R3 & _ & C3 & _ & N3);
    [rewrite C2, C1, Hr0;
     replace (randomCalls w0 + 7 + 7)%nat with (randomCalls w0 + 7 * 2)%nat
       by lia; apply Hedges; lia | exact Hsize |].
  destruct (spawnAsteroid_placement E
              (spawnAsteroid E
                 (spawnAsteroid E (spawnAsteroid E (reset E w0)))) Hrandom)
    as (a4 & H4 & P4 & R4 & _ & C4 & _ & N4);
    [rewrite C3, C2, C1, Hr0;
     replace (randomCalls w0 + 7 + 7 + 7)%nat
       with (randomCalls w0 + 7 * 3)%nat by lia; apply Hedges; lia
    | exact Hsize |].
  rewrite C4, C3, C2, C1, Hr0, N4, N3, N2, N1.
  assert (Hst : state (spawnAsteroid E (spawnAsteroid E (spawnAsteroid E
                  (spawnAsteroid E (reset E w0)))))
                = set_asteroids [a1; a2; a3; a4] (state (reset E w0))).
  { rewrite H4, H3, H2, H1. reflexivity. }
  rewrite Hst.
  split; [reflexivity|]. split; [reflexivity|]. split; [reflexivity|].
  split.
  { simpl. do 4 (constructor; [tauto|]). constructor. }
  do 6 (split; [reflexivity|]). split; [lia | reflexivity].
Qed.

Lemma reset_then_four_spawns_witness :
  let w := boot sampleEnv in
  ship (state w) = Some (fresh_ship sampleEnv)
  /\ bullets (state w) = []
  /\ length (asteroids (state w)) = 4%nat
  /\ Forall (fun a => enters_from_edge sampleEnv a
                      /\ 18 <= Asteroid.radius a /\ Asteroid.radius a <= 44)
       (asteroids (state w))
  /\ score (state w) = 0%Z
  /\ gameOver (state w) = false
  /\ spawnInterval (state w)
     = (if spawnFastToggle (initial sampleEnv) then 500
        else SPAWN_INTERVAL_BASE)
  /\ lastSpawn (state w)
     = performance_now sampleEnv (nowCalls (initial sampleEnv))
  /\ _shotCooldown (state w) = _shotCooldown (state (initial sampleEnv))
  /\ lastTime (state w) = lastTime (state (initial sampleEnv))
  /\ randomCalls w = (randomCalls (initial sampleEnv) + 28)%nat
  /\ nowCalls w = S (nowCalls (initial sampleEnv)).
Proof.
  exact (reset_then_four_spawns sampleEnv (initial sampleEnv)
           sample_random_upto_one (fun i _ => sample_edge_draws _)
           sample_size_ok).
Defined.

(** ** The key handlers *)

(** [keydown] makes [keys[code]] true and [keyup] makes it false; neither
    touches the entry of another code, and of the state they change nothing
    except that pressing F flips the fast-spawn toggle and overwrites the
    spawn interval with 500 (toggle now on) or 1200 (toggle now off), whatever
    it had decayed to.  Pressing S switches the ship speed multiplier between
    1 and 2 (any other value goes to 1). *)
Theorem key_handlers (code code' : string) (w : World) :
  key code (keydown code w) = true
  /\ key code (keyup code w) = false
  /\ (code' <> code ->
      key code' (keydown code w) = key code' w
      /\ key code' (keyup code w) = key code' w)
  /\ state (keyup code w) = state w
  /\ spawnFastToggle (keyup code w) = spawnFastToggle w
  /\ shipSpeedMult (keyup code w) = shipSpeedMult w
  /\ (code <> "KeyF" ->
      state (keydown code w) = state w
      /\ spawnFastToggle (keydown code w) = spawnFastToggle w)
  /\ (state (keydown "KeyF" w)
      = set_spawnInterval
          (if spawnFastToggle w then SPAWN_INTERVAL_BASE else 500) (state w)
      /\ spawnFastToggle (keydown "KeyF" w) = negb (spawnFastToggle w))
  /\ (code <> "KeyS" -> shipSpeedMult (keydown code w) = shipSpeedMult w)
  /\ shipSpeedMult (keydown "KeyS" w)
     = (if Qeq_bool (shipSpeedMult w) 1 then 2 else 1).
Proof.
  assert (Hkd : keys (keydown code w) = <[code := true]> (keys w)).
  { unfold keydown. cbv zeta.
    destruct (String.eqb code "KeyF"); destruct (String.eqb code "KeyS");
      reflexivity. }
  split.
  { unfold key. rewrite Hkd, lookup_insert_eq. reflexivity. }
  split.
  { unfold key, keyup. simpl. rewrite lookup_insert_eq. reflexivity. }
  split.
  { intros Hne. unfold key. rewrite Hkd. unfold keyup. simpl.
    rewrite !lookup_insert_ne by congruence. split; reflexivity. }
  split; [reflexivity|]. split; [reflexivity|]. split; [reflexivity|].
  split.
  { intros Hne. apply String.eqb_neq in Hne. unfold keydown. cbv zeta.
    simpl. rewrite Hne. destruct (String.eqb code "KeyS"); split; reflexivity. }
  split.
  { unfold keydown. simpl. destruct (spawnFastToggle w); split; reflexivity. }
  split.
  { intros Hne. apply String.eqb_neq in Hne. unfold keydown. cbv zeta.
    simpl. rewrite Hne. destruct (String.eqb code "KeyF"); reflexivity. }
  reflexivity.
Qed.

(** ** Firing *)

(** On a world with a ship, line 155-160 never fault and leave the ship, the
    asteroids, the score and the flag alone.  A shot is fired exactly when
    the space bar is held and either no shot was stamped yet, or the stamp is
    0, or the clock reads more than 180 ms past the stamp: then one bullet,
    the one [shoot] makes for the ship, is appended after the others and the
    clock is read once more for the new stamp.  Otherwise the bullets and the
    stamp are unchanged. *)
Theorem fire_cooldown_rule (E : Env) (w : World) (s : Ship.t)
    (Hship : ship (state w) = Some s) :
  exists w' : World,
    fire E w = Some w'
    /\ ship (state w') = Some s
    /\ asteroids (state w') = asteroids (state w)
    /\ score (state w') = score (state w)
    /\ gameOver (state w') = gameOver (state w)
    /\ (if key "Space" w && cooled_down E w
        then bullets (state w') = bullets (state w) ++ [bullet_of E s]
             /\ _shotCooldown (state w')
                = Some (performance_now E (nowCalls w' - 1))
             /\ (nowCalls w < nowCalls w' <= nowCalls w + 2)%nat
        else bullets (state w') = bullets (state w)
             /\ _shotCooldown (state w') = _shotCooldown (state w)).
Proof.
  unfold fire, cooled_down.
  destruct (key "Space" w); simpl.
  - destruct (_shotCooldown (state w)) as [t0|] eqn:Hc.
    + destruct (Qeq_bool t0 0); simpl.
      * unfold shoot_and_stamp, shoot, now. rewrite Hship. simpl.
        eexists. split; [reflexivity|]. simpl. rewrite Hship.
        rewrite Nat.sub_0_r.
        repeat split; try reflexivity; lia.
      * destruct (Qltb 180 (performance_now E (nowCalls w) - t0)).
        -- unfold shoot_and_stamp, shoot, now. simpl. rewrite Hship. simpl.
           eexists. split; [reflexivity|]. simpl. rewrite Hship.
           repeat split; try reflexivity; lia.
        -- eexists. split; [reflexivity|]. simpl. rewrite Hship.
           repeat split; try reflexivity. exact Hc.
    + unfold shoot_and_stamp, shoot, now. rewrite Hship. simpl.
      eexists. split; [reflexivity|]. simpl. rewrite Hship.
      rewrite Nat.sub_0_r.
      repeat split; try reflexivity; lia.
  - exists w. repeat split; try reflexivity. exact Hship.
Qed.

Lemma fire_cooldown_rule_witness :
  exists w' : World,
    fire sampleEnv w_fight = Some w'
    /\ ship (state w') = Some (fresh_ship sampleEnv)
    /\ asteroids (state w') = asteroids (state w_fight)
    /\ score (state w') = score (state w_fight)
    /\ gameOver (state w') = gameOver (state w_fight)
    /\ (if key "Space" w_fight && cooled_down sampleEnv w_fight
        then bullets (state w')
             = bullets (state w_fight)
               ++ [bullet_of sampleEnv (fresh_ship sampleEnv)]
             /\ _shotCooldown (state w')
                = Some (performance_now sampleEnv (nowCalls w' - 1))
             /\ (nowCalls w_fight < nowCalls w' <= nowCalls w_fight + 2)%nat
        else bullets (state w') = bullets (state w_fight)
             /\ _shotCooldown (state w') = _shotCooldown (state w_fight)).
Proof.
  apply (fire_cooldown_rule sampleEnv w_fight (fresh_ship sampleEnv)).
  reflexivity.
Defined.

(** ** What a call of [step] leaves behind *)

Lemma asteroids_updated_in_margin (E : Env) (dt : Q) (l : list Asteroid.t) :
  Forall (in_margin E 200) (asteroids_updated E dt l).
Proof.
  unfold asteroids_updated. induction l as [|a l IH]; simpl.
  - constructor.
  - destruct (far_outside E (move_asteroid dt a)) eqn:Hf; simpl; [exact IH|].
    constructor; [|exact IH]. unfold far_outside in Hf.
    apply orb_false_iff in Hf. destruct Hf as [Hf H4].
    apply orb_false_iff in Hf. destruct Hf as [Hf H3].
    apply orb_false_iff in Hf. destruct Hf as [H1 H2].
    apply Qltb_ge in H1, H2, H3, H4. unfold in_margin. repeat split; lra.
Qed.

(** After a call of [step] on a world with a ship, every bullet left in the
    array has a positive remaining life: the bullets that expired in this
    call, with [life <= 0] after the decrement, are gone. *)
Theorem bullets_alive_after_step (E : Env) (dt : Q) (w : World) (s : Ship.t)
    (Hship : ship (state w) = Some s) :
  exists w' : World,
    step E dt w = Some w'
    /\ Forall (fun b => 0 < Bullet.life b) (bullets (state w')).
Proof.
  destruct (step_spec E dt w s Hship) as (w' & w_in & Hrun & Hout & _).
  exists w'. split; [exact Hrun|].
  destruct Hout as (spawned & surv & destroyed & kids & _ & _ & _ & _ & _ & _
                    & Hbs & _).
  apply (Forall_sublist _ _ _ Hbs). apply bullets_updated_alive.
Qed.

Lemma bullets_alive_after_step_witness :
  exists w' : World,
    step sampleEnv 8 w_fight = Some w'
    /\ Forall (fun b => 0 < Bullet.life b) (bullets (state w')).
Proof.
  apply (bullets_alive_after_step sampleEnv 8 w_fight (fresh_ship sampleEnv)).
  reflexivity.
Defined.

Lemma rand_at_closed_range (E : Env) (k : nat) (lo hi : Q) :
  random_upto_one E -> lo <= hi ->
  lo <= rand_at E k lo hi /\ rand_at E k lo hi <= hi.
Proof.
  intros HR Hlh. destruct (HR k) as [H0 H1]. unfold rand_at.
  split; nra.
Qed.

Lemma fragment_of_closed_jitter (E : Env) (a c : Asteroid.t) :
  random_upto_one E -> fragment_of E a c -> jittered_fragment a c.
Proof.
  intros HR [k ->]. unfold jittered_fragment. simpl.
  assert (H10 : -10 <= 10) by lra. assert (H1 : -1 <= 1) by lra.
  pose proof (rand_at_closed_range E k (-10) 10 HR H10).
  pose proof (rand_at_closed_range E (k + 1) (-10) 10 HR H10).
  pose proof (rand_at_closed_range E (k + 2) (-1) 1 HR H1).
  pose proof (rand_at_closed_range E (k + 3) (-1) 1 HR H1).
  split; [reflexivity|]. repeat split; lra.
Qed.

(** After a call of [step] on a world with a ship, where [wf] is the world
    the fire lines left: the collision pass starts from the asteroids of the
    world in which line 175 started and the one the spawn tick may have
    pushed, moved, without those that were culled, and none of these is
    further than 200 units outside the canvas.  The asteroids the call leaves
    are the survivors of the collision, in their order, followed by the
    fragments of the asteroids shot down, two for each that splits, last shot
    first; no fragment is further than 210 units outside the canvas (it is
    placed within 10 units of an asteroid that was within 200). *)
Theorem asteroids_in_margin_after_step (E : Env) (dt : Q) (w : World)
    (s : Ship.t)
    (Hrandom : random_upto_one E) (Hship : ship (state w) = Some s) :
  exists (w' wf : World) (spawned kids : list Asteroid.t),
    fire E (upd (set_ship (Some (controls E dt w s))) w) = Some wf
    /\ step E dt w = Some w'
    /\ asteroids (state (before_collisions E dt
                           (entering_updates E dt s w wf)))
       = asteroids_updated E dt
           (asteroids (state (entering_updates E dt s w wf)) ++ spawned)
    /\ length spawned
       = (if spawn_due E (entering_updates E dt s w wf) then 1 else 0)%nat
    /\ Forall (in_margin E 200)
         (asteroids (state (before_collisions E dt
                              (entering_updates E dt s w wf))))
    /\ asteroids (state w') = survivors (step_collision E dt s w wf) ++ kids
    /\ survivors (step_collision E dt s w wf)
       `sublist_of` asteroids (state (before_collisions E dt
                                        (entering_updates E dt s w wf)))
    /\ Forall (in_margin E 200) (survivors (step_collision E dt s w wf))
    /\ fragments_made E (rev (shot_down (step_collision E dt s w wf))) kids
    /\ Forall (in_margin E 210) kids.
Proof.
  destruct (step_exact E dt w s Hship)
    as (w' & wf & kids & bs & c0 & Hf & Hstf & Gf & Hrun & Hout).
  destruct (Hout _ _ eq_refl eq_refl) as (Hst & Hk & _ & _).
  destruct (before_collisions_exact E dt (entering_updates E dt s w wf))
    as (spawned & Hst3 & Hsp & _).
  set (w3 := before_collisions E dt (entering_updates E dt s w wf)) in *.
  assert (Ha3 : asteroids (state w3)
                = asteroids_updated E dt
                    (asteroids (state (entering_updates E dt s w wf))
                     ++ spawned))
    by (rewrite Hst3; reflexivity).
  assert (Hmid : Forall (in_margin E 200) (asteroids (state w3)))
    by (rewrite Ha3; apply asteroids_updated_in_margin).
  destruct (collide_fn_partition (asteroids (state w3)) (bullets (state w3)))
    as (Hsurv & Hshot & _).
  change (collide_fn (asteroids (state w3)) (bullets (state w3)))
    with (step_collision E dt s w wf) in Hsurv, Hshot.
  exists w', wf, spawned, kids.
  split; [exact Hf|]. split; [exact Hrun|]. split; [exact Ha3|].
  split.
  { destruct (spawn_due E (entering_updates E dt s w wf)).
    - destruct Hsp as (a & k & -> & _). reflexivity.
    - subst spawned. reflexivity. }
  split; [exact Hmid|]. split; [rewrite Hst; reflexivity|].
  split; [exact Hsurv|].
  split; [exact (Forall_sublist _ _ _ Hsurv Hmid)|].
  split; [exact Hk|].
  destruct (fragments_made_spec E _ _ Hk) as [Hall _].
  pose proof (Forall_sublist _ _ _ Hshot Hmid) as Hdes.
  rewrite Forall_forall in Hdes.
  eapply Forall_impl; [exact Hall|].
  intros c (a & Hin & _ & Hfr). simpl.
  apply list_elem_of_In, in_rev, list_elem_of_In in Hin.
  destruct (Hdes a Hin) as [[Hx1 Hx2] [Hy1 Hy2]].
  destruct (fragment_of_closed_jitter E a c Hrandom Hfr)
    as (_ & [Jx1 Jx2] & [Jy1 Jy2] & _).
  unfold in_margin. repeat split; lra.
Qed.

Lemma asteroids_in_margin_after_step_witness :
  exists (w' wf : World) (spawned kids : list Asteroid.t),
    fire sampleEnv
      (upd (set_ship (Some (controls sampleEnv 8 w_fight
                              (fresh_ship sampleEnv)))) w_fight)
    = Some wf
    /\ step sampleEnv 8 w_fight = Some w'
    /\ asteroids (state (before_collisions sampleEnv 8
                           (entering_updates sampleEnv 8
                              (fresh_ship sampleEnv) w_fight wf)))
       = asteroids_updated sampleEnv 8
           (asteroids (state (entering_updates sampleEnv 8
                                (fresh_ship sampleEnv) w_fight wf))
            ++ spawned)
    /\ length spawned
       = (if spawn_due sampleEnv
               (entering_updates sampleEnv 8 (fresh_ship sampleEnv) w_fight
                  wf)
          then 1 else 0)%nat
    /\ Forall (in_margin sampleEnv 200)
         (asteroids (state (before_collisions sampleEnv 8
                              (entering_updates sampleEnv 8
                                 (fresh_ship sampleEnv) w_fight wf))))
    /\ asteroids (state w')
       = survivors (step_collision sampleEnv 8 (fresh_ship sampleEnv)
                      w_fight wf) ++ kids
    /\ survivors (step_collision sampleEnv 8 (fresh_ship sampleEnv) w_fight
                    wf)
       `sublist_of` asteroids (state (before_collisions sampleEnv 8
                                        (entering_updates sampleEnv 8
                                           (fresh_ship sampleEnv) w_fight
                                           wf)))
    /\ Forall (in_margin sampleEnv 200)
         (survivors (step_collision sampleEnv 8 (fresh_ship sampleEnv)
                       w_fight wf))
    /\ fragments_made sampleEnv
         (rev (shot_down (step_collision sampleEnv 8 (fresh_ship sampleEnv)
                            w_fight wf))) kids
    /\ Forall (in_margin sampleEnv 210) kids.
Proof.
  apply (asteroids_in_margin_after_step sampleEnv 8 w_fight
           (fresh_ship sampleEnv) sample_random_upto_one).
  reflexivity.
Defined.

(** After a call of [step] that does not restart, on a world with a ship,
    the game is over exactly when it was over before or one of the asteroids
    now in the array is closer to the ship, as the call leaves it, than the
    sum of the two radii less 4.  So such a call never clears the flag. *)
Theorem game_over_rule (E : Env) (dt : Q) (w : World) (s : Ship.t)
    (Hship : ship (state w) = Some s)
    (Hno : restart_requested w = false) :
  exists (w' : World) (s' : Ship.t),
    step E dt w = Some w'
    /\ ship (state w') = Some s'
    /\ gameOver (state w')
       = existsb (touches s') (asteroids (state w')) || gameOver (state w).
Proof.
  destruct (step_spec E dt w s Hship) as (w' & w_in & Hrun & Hout & Hin).
  rewrite Hno in Hin. destruct Hin as (bs & c & Hst & _).
  destruct Hout as (spawned & surv & destroyed & kids & _ & _ & _ & _ & _ & _
                    & _ & _ & _ & Hover & Hs' & _).
  exists w'. eexists. split; [exact Hrun|].
  rewrite Hst in Hover, Hs'. simpl in Hover, Hs'.
  split; [exact Hs' | exact Hover].
Qed.

Lemma game_over_rule_witness :
  exists (w' : World) (s' : Ship.t),
    step sampleEnv 8 w_fight = Some w'
    /\ ship (state w') = Some s'
    /\ gameOver (state w')
       = existsb (touches s') (asteroids (state w'))
         || gameOver (state w_fight).
Proof.
  apply (game_over_rule sampleEnv 8 w_fight (fresh_ship sampleEnv));
    reflexivity.
Defined.

(** ** What [step] and [loop] never write *)

Lemma step_frame (E : Env) (dt : Q) (w w' : World) :
  step E dt w = Some w' ->
  lastTime (state w') = lastTime (state w) /\ same_globals w w'.
Proof.
  intros Hstep.
  destruct (ship (state w)) as [s|] eqn:Hs.
  - destruct (step_spec E dt w s Hs) as (w1 & w_in & Hrun & Hout & Hin).
    rewrite Hrun in Hstep. injection Hstep as ->.
    destruct Hout as (spawned & surv & destroyed & kids & _ & _ & _ & _ & _ & _
                      & _ & _ & _ & _ & _ & Hlt & _ & G).
    assert (Hw_in : lastTime (state w_in) = lastTime (state w)
                    /\ same_globals w w_in).
    { destruct (restart_requested w).
      - destruct Hin as (wf & Hf & ->).
        destruct (fire_spec E (upd (set_ship (Some (controls E dt w s))) w)
                    (controls E dt w s)) as (wf' & bs & c & Hf' & Hst & Gf);
          [reflexivity|].
        rewrite Hf in Hf'. injection Hf' as <-.
        split.
        + change (lastTime (state (reset E wf))) with (lastTime (state wf)).
          rewrite Hst. reflexivity.
        + destruct Gf as (?&?&?). repeat split; simpl; assumption.
      - destruct Hin as (bs & c & Hst & G0). rewrite Hst.
        split; [reflexivity | exact G0]. }
    destruct Hw_in as [Hlt0 (K1 & K2 & K3)]. destruct G as (K4 & K5 & K6).
    split; [congruence|]. repeat split; congruence.
  - unfold step in Hstep. rewrite Hs in Hstep. injection Hstep as <-.
    split; [reflexivity | repeat split; reflexivity].
Qed.

Lemma step_keeps_ship (E : Env) (dt : Q) (w w' : World) (s : Ship.t) :
  ship (state w) = Some s -> step E dt w = Some w' ->
  exists s' : Ship.t, ship (state w') = Some s'.
Proof.
  intros Hs Hstep.
  destruct (step_spec E dt w s Hs) as (w1 & w_in & Hrun & Hout & Hin).
  rewrite Hrun in Hstep. injection Hstep as ->.
  destruct Hout as (spawned & surv & destroyed & kids & _ & _ & _ & _ & _ & _
                    & _ & _ & _ & _ & Hs' & _).
  rewrite Hs'. destruct (restart_requested w).
  - destruct Hin as (wf & _ & ->). eexists. reflexivity.
  - destruct Hin as (bs & c & -> & _). eexists. reflexivity.
Qed.

(** [loop] always runs to its call of [render]; it leaves [lastTime] equal
    to its own time stamp (so the next frame's [dt] is the difference of the
    two time stamps, capped at 40), and never writes [keys] or the two debug
    toggles: [step] itself writes neither [lastTime] nor any of them.  On a
    world with a ship the world [loop] leaves has a ship and [render] draws
    it: the frame completes.  On a world without a ship [step] returns at
    once, [lastTime] is all that [loop] writes, and then
    [drawShip(state.ship)] throws: the frame does not complete and
    [requestAnimationFrame] is not reached. *)
Theorem frame_stamps_time (E : Env) (t : Q) (w : World) :
  (exists w' : World,
     loop E t w = Some w'
     /\ lastTime (state w') = t
     /\ same_globals w w'
     /\ (forall t' : Q, loop_dt t' w' = Qmin 40 (t' - t))
     /\ (forall s : Ship.t,
           ship (state w) = Some s ->
           (exists s' : Ship.t, ship (state w') = Some s')
           /\ frame E t w = Some w')
     /\ (ship (state w) = None ->
         w' = upd (set_lastTime t) w /\ frame E t w = None))
  /\ (forall (dt : Q) (w' : World),
        step E dt w = Some w' ->
        lastTime (state w') = lastTime (state w) /\ same_globals w w').
Proof.
  split; [|intros dt w'; apply step_frame].
  unfold frame, loop. cbv zeta.
  change (gameOver (state (upd (set_lastTime t) w))) with (gameOver (state w)).
  destruct (gameOver (state w)).
  - eexists. split; [reflexivity|]. split; [reflexivity|].
    split; [repeat split; reflexivity|]. split; [intros t'; reflexivity|].
    split.
    + intros s Hs. split; [exists s; exact Hs|].
      simpl. unfold render. setters. rewrite Hs. reflexivity.
    + intros Hs. split; [reflexivity|].
      simpl. unfold render. setters. rewrite Hs. reflexivity.
  - destruct (step_total E (loop_dt t w) (upd (set_lastTime t) w))
      as [w' Hstep].
    destruct (step_frame E _ _ _ Hstep) as [Hlt G].
    exists w'. split; [exact Hstep|]. split; [exact Hlt|].
    split; [exact G|].
    split; [intros t'; unfold loop_dt; rewrite Hlt; reflexivity|].
    split.
    + intros s Hs.
      destruct (step_keeps_ship E (loop_dt t w) (upd (set_lastTime t) w) w' s
                  Hs Hstep) as [s' Hs'].
      split; [exists s'; exact Hs'|].
      rewrite Hstep. simpl. unfold render. rewrite Hs'. reflexivity.
    + intros Hs. unfold step in Hstep.
      change (ship (state (upd (set_lastTime t) w))) with (ship (state w))
        in Hstep.
      rewrite Hs in Hstep. injection Hstep as <-.
      split; [reflexivity|].
      unfold step.
      change (ship (state (upd (set_lastTime t) w))) with (ship (state w)).
      rewrite Hs. simpl. unfold render. setters. rewrite Hs. reflexivity.
Qed.

(** A frame on a world without a ship, run: [loop] has stamped the time and
    done nothing else, and [render] throws. *)
Lemma frame_without_ship :
  loop sampleEnv 16 w_no_ship = Some (upd (set_lastTime 16) w_no_ship)
  /\ frame sampleEnv 16 w_no_ship = None.
Proof. split; reflexivity. Qed.

(** ** A call of [step] that restarts *)

Lemma bind_Some {A B} (x : A) (f : A -> option B) : (Some x ≫= f) = f x.
Proof. reflexivity. Qed.

(** The spawn tick does nothing but read the clock when the interval has not
    elapsed. *)
Lemma spawn_tick_quiet (E : Env) (w : World) :
  performance_now E (nowCalls w) - lastSpawn (state w)
  <= spawnInterval (state w) ->
  spawn_tick E w = count_now w.
Proof.
  intros H. apply Qltb_ge in H. unfold spawn_tick, now. cbv zeta.
  change (state (count_now w)) with (state w). rewrite H. reflexivity.
Qed.

Lemma restart_tail (E : Env) (dt : Q) (s : Ship.t) (wf : World) :
  clock_quiet E ->
  after_restart_check E dt true s (reset E wf)
  = Some (upd (set_asteroids [])
            (count_now (upd (set_bullets []) (reset E wf)))).
Proof.
  intros Hclock. unfold after_restart_check. cbv zeta.
  rewrite update_bullets_spec, bind_Some.
  rewrite spawn_tick_quiet.
  - rewrite update_asteroids_spec, bind_Some. reflexivity.
  - change (performance_now E (S (nowCalls wf))
            - performance_now E (nowCalls wf)
            <= (if spawnFastToggle wf then 500 else SPAWN_INTERVAL_BASE)).
    pose proof (Hclock (nowCalls wf)).
    destruct (spawnFastToggle wf); unfold SPAWN_INTERVAL_BASE; lra.
Qed.

(** Were [step] called with R held on a game-over world that has a ship, on
    a machine whose clock never jumps by more than 500 ms between two
    readings, the call would leave a fresh game: the ship [reset] made,
    untouched by this call's physics (which move the old ship object), no
    bullet (not even one fired in this call), no asteroid, score 0, the flag
    cleared and the spawn interval at its reset value. *)
Theorem restart_step_gives_fresh_game (E : Env) (dt : Q) (w : World)
    (s : Ship.t)
    (Hship : ship (state w) = Some s)
    (Hreq : restart_requested w = true)
    (Hclock : clock_quiet E) :
  exists w' : World,
    step E dt w = Some w'
    /\ ship (state w') = Some (fresh_ship E)
    /\ bullets (state w') = []
    /\ asteroids (state w') = []
    /\ score (state w') = 0%Z
    /\ gameOver (state w') = false
    /\ spawnInterval (state w')
       = (if spawnFastToggle w then 500 else SPAWN_INTERVAL_BASE).
Proof.
  destruct (step_restarts_when_called E dt w s Hship Hreq)
    as (wf & Hf & Hstep & _).
  destruct (fire_spec E (upd (set_ship (Some (controls E dt w s))) w)
              (controls E dt w s)) as (wf' & bs & c & Hf' & _ & Gf);
    [reflexivity|].
  rewrite Hf in Hf'. injection Hf' as <-.
  rewrite (restart_tail E dt _ wf Hclock) in Hstep.
  eexists. split; [exact Hstep|].
  do 5 (split; [reflexivity|]).
  destruct Gf as (_ & Ht & _). simpl in Ht.
  change (spawnInterval (state (upd (set_asteroids [])
            (count_now (upd (set_bullets []) (reset E wf))))))
    with (if spawnFastToggle wf then 500 else SPAWN_INTERVAL_BASE).
  rewrite Ht. reflexivity.
Qed.

Lemma sample_clock_quiet : clock_quiet sampleEnv.
Proof.
  intros n. simpl. rewrite Nat2Z.inj_succ. unfold Z.succ.
  rewrite inject_Z_plus. change (inject_Z 1) with 1. lra.
Qed.

Lemma restart_step_gives_fresh_game_witness :
  exists w' : World,
    step sampleEnv 16 w_over_restart = Some w'
    /\ ship (state w') = Some (fresh_ship sampleEnv)
    /\ bullets (state w') = []
    /\ asteroids (state w') = []
    /\ score (state w') = 0%Z
    /\ gameOver (state w') = false
    /\ spawnInterval (state w')
       = (if spawnFastToggle w_over_restart then 500
          else SPAWN_INTERVAL_BASE).
Proof.
  apply (restart_step_gives_fresh_game sampleEnv 16 w_over_restart
           (default (fresh_ship sampleEnv) (ship (state w_over_restart)))).
  - vm_compute. reflexivity.
  - vm_compute. reflexivity.
  - exact sample_clock_quiet.
Defined.

(** ** What the bullet-asteroid pass decides *)

(** The bullet-asteroid pass never faults and computes [collide_fn]: the
    asteroids it leaves are the survivors, in their order, followed by the
    fragments of the asteroids shot down (two for each that splits, last shot
    first); the bullets it leaves are those [collide_fn] leaves; the score
    grows by the awards of the asteroids shot down.  Survivors and asteroids
    shot down are, together, the asteroids that were there; an asteroid is
    shot down only if one of the bullets was over it (closer to its centre
    than its radius plus 2); no bullet that is left is over a survivor; one
    bullet goes for each asteroid shot down; and if any bullet is over any
    asteroid, some asteroid is shot down.  Only the fragments made in the
    pass are not tested against the bullets. *)
Theorem collision_pass_is_exact (E : Env) (w : World) :
  (exists (w' : World) (kids : list Asteroid.t),
     collide_bullets E w = Some w'
     /\ asteroids (state w')
        = survivors (collide_fn (asteroids (state w)) (bullets (state w)))
          ++ kids
     /\ fragments_made E
          (rev (shot_down
                  (collide_fn (asteroids (state w)) (bullets (state w)))))
          kids
     /\ bullets (state w')
        = bullets_left (collide_fn (asteroids (state w)) (bullets (state w)))
     /\ score (state w')
        = (score (state w)
           + total_award
               (shot_down
                  (collide_fn (asteroids (state w)) (bullets (state w)))))%Z)
  /\ (forall (l : list Asteroid.t) (bs : list Bullet.t),
        survivors (collide_fn l bs) `sublist_of` l
        /\ shot_down (collide_fn l bs) `sublist_of` l
        /\ survivors (collide_fn l bs) ++ shot_down (collide_fn l bs) ≡ₚ l
        /\ bullets_left (collide_fn l bs) `sublist_of` bs
        /\ (length (bullets_left (collide_fn l bs))
            + length (shot_down (collide_fn l bs)) = length bs)%nat
        /\ Forall (fun a => exists b, b ∈ bs /\ hits a b = true)
             (shot_down (collide_fn l bs))
        /\ Forall (fun a => Forall (fun b => hits a b = false)
                              (bullets_left (collide_fn l bs)))
             (survivors (collide_fn l bs))
        /\ (forall (a : Asteroid.t) (b : Bullet.t),
              a ∈ l -> b ∈ bs -> hits a b = true ->
              shot_down (collide_fn l bs) <> [])).
Proof.
  split.
  - destruct (collide_bullets_exact E w) as (w' & kids & Hrun & Hst & _ & _ & Hk).
    exists w', kids. split; [exact Hrun|].
    split; [rewrite Hst; reflexivity|]. split; [exact Hk|].
    split; rewrite Hst; reflexivity.
  - intros l bs.
    destruct (collide_fn_partition l bs) as (H1 & H2 & H3 & H4 & H5).
    destruct (collide_fn_hits l bs) as [H6 H7].
    split; [exact H1|]. split; [exact H2|]. split; [exact H3|].
    split; [exact H4|]. split; [exact H5|]. split; [exact H6|].
    split; [exact H7|]. intros a b. apply collide_fn_some.
Qed.

(** The pass on the two sample worlds: the bullet is over the asteroid, the
    asteroid is shot down and the bullet is gone. *)
Lemma collision_pass_examples :
  shot_down (collide_fn (asteroids (state w_big)) (bullets (state w_big)))
  = asteroids (state w_big)
  /\ survivors (collide_fn (asteroids (state w_big)) (bullets (state w_big)))
     = []
  /\ bullets_left (collide_fn (asteroids (state w_big))
                     (bullets (state w_big))) = []
  /\ shot_down (collide_fn (asteroids (state w_small))
                  (bullets (state w_small)))
     = asteroids (state w_small).
Proof. repeat split; vm_compute; reflexivity. Qed.

(** ** Radii, awards and the score in the worlds of a game *)

(** In every world of a game, every asteroid has a radius above 14.3 and at
    most 44, so that destroying it gives from 56 to 85 points, and the score
    is not negative.  A call of [step] that does not reset adds to the score
    from 56 to 85 points for each asteroid shot down in its collision, and a
    frame never lowers the score. *)
Theorem running_game_radii_and_score (w : World) (Hplayed : played w) :
  Forall (fun a => game_radius (Asteroid.radius a)
                   /\ (56 <= award a <= 85)%Z)
    (asteroids (state w))
  /\ (0 <= score (state w))%Z
  /\ (forall (E : Env) (dt : Q) (s : Ship.t),
        random_upto_one E ->
        ship (state w) = Some s ->
        restart_requested w = false ->
        exists w' wf : World,
          fire E (upd (set_ship (Some (controls E dt w s))) w) = Some wf
          /\ step E dt w = Some w'
          /\ (56 * Z.of_nat (length (shot_down (step_collision E dt s w wf)))
              <= score (state w') - score (state w)
              /\ score (state w') - score (state w)
                 <= 85 * Z.of_nat
                           (length (shot_down (step_collision E dt s w wf))))%Z)
  /\ (forall (E : Env) (t : Q) (w' : World),
        random_upto_one E ->
        loop E t w = Some w' ->
        (score (state w) <= score (state w'))%Z
        /\ (gameOver (state w) = true -> score (state w') = score (state w))).
Proof.
  pose proof (played_well_formed w Hplayed) as Hwf.
  destruct Hwf as (Hs & Hb & Hw & Hsc & Hfl).
  split; [|split; [exact Hsc|split]].
  - eapply Forall_impl; [exact Hw|]. intros a Ha. simpl in Ha.
    split; [exact Ha | apply award_of_game_radius; exact Ha].
  - intros E dt s HR Hship Hno.
    destruct (step_exact E dt w s Hship)
      as (w' & wf & kids & bs & c0 & Hf & Hstf & _ & Hrun & _).
    destruct (step_no_restart E dt w s Hship Hno)
      as (w1 & wf1 & kids1 & Hf1 & Hrun1 & _ & _ & _ & Heq & _).
    rewrite Hf in Hf1. injection Hf1 as <-.
    rewrite Hrun in Hrun1. injection Hrun1 as <-.
    exists w', wf. split; [exact Hf|]. split; [exact Hrun|].
    destruct (step_collision_radii E dt s w wf bs c0 HR Hstf Hw)
      as (_ & _ & Hd).
    pose proof (total_award_bounds _ Hd). lia.
  - intros E t w' HR Hloop.
    destruct (loop_well_formed E t w w' HR
                (conj Hs (conj Hb (conj Hw (conj Hsc Hfl)))) Hloop)
      as [_ Hle].
    split; [exact Hle|]. intros Hover.
    rewrite (loop_game_over E t w Hover) in Hloop. injection Hloop as <-.
    reflexivity.
Qed.

Lemma running_game_radii_and_score_witness :
  Forall (fun a => game_radius (Asteroid.radius a)
                   /\ (56 <= award a <= 85)%Z)
    (asteroids (state w_fight))
  /\ (0 <= score (state w_fight))%Z
  /\ (forall (E : Env) (dt : Q) (s : Ship.t),
        random_upto_one E ->
        ship (state w_fight) = Some s ->
        restart_requested w_fight = false ->
        exists w' wf : World,
          fire E (upd (set_ship (Some (controls E dt w_fight s))) w_fight)
          = Some wf
          /\ step E dt w_fight = Some w'
          /\ (56 * Z.of_nat
                     (length (shot_down (step_collision E dt s w_fight wf)))
              <= score (state w') - score (state w_fight)
              /\ score (state w') - score (state w_fight)
                 <= 85 * Z.of_nat
                           (length
                              (shot_down
                                 (step_collision E dt s w_fight wf))))%Z)
  /\ (forall (E : Env) (t : Q) (w' : World),
        random_upto_one E ->
        loop E t w_fight = Some w' ->
        (score (state w_fight) <= score (state w'))%Z
        /\ (gameOver (state w_fight) = true ->
            score (state w') = score (state w_fight))).
Proof.
  exact (running_game_radii_and_score w_fight w_fight_played).
Defined.

(** ** The speed of the ship *)

Lemma controls_velocity (E : Env) (dt : Q) (w : World) (s : Ship.t) :
  trig_bounded E ->
  -40 <= dt -> dt <= 40 ->
  0 <= shipSpeedMult w -> shipSpeedMult w <= 2 ->
  (-0.208 <= Ship.vx (controls E dt w s) - Ship.vx s
   /\ Ship.vx (controls E dt w s) - Ship.vx s <= 0.208)
  /\ (-0.208 <= Ship.vy (controls E dt w s) - Ship.vy s
      /\ Ship.vy (controls E dt w s) - Ship.vy s <= 0.208).
Proof.
  intros HT Hd1 Hd2 Hm1 Hm2.
  assert (Hf : -0.208 <= 0.0026 * dt * shipSpeedMult w
               /\ 0.0026 * dt * shipSpeedMult w <= 0.208).
  { split; nra. }
  destruct Hf as [Hf1 Hf2].
  assert (Hprod : forall c : Q, -1 <= c -> c <= 1 ->
            -0.208 <= c * (0.0026 * dt * shipSpeedMult w)
            /\ c * (0.0026 * dt * shipSpeedMult w) <= 0.208).
  { intros c Hc1 Hc2. split; nra. }
  unfold controls. cbv zeta.
  destruct (key "ArrowLeft" w || key "KeyA" w);
    destruct (key "ArrowRight" w || key "KeyD" w);
    destruct (key "ArrowUp" w || key "KeyW" w); simpl;
    try (repeat split; lra);
    match goal with
    | |- context [Math_cos E ?a] =>
        destruct (HT a) as [[Hc1 Hc2] [Hs1 Hs2]];
        destruct (Hprod _ Hc1 Hc2); destruct (Hprod _ Hs1 Hs2);
        repeat split; lra
    end.
Qed.

(** Friction caps the speed of the ship.  With [Math.cos] and [Math.sin]
    between -1 and 1, a [dt] between -40 and 40 and a speed multiplier
    between 0 and 2, a call of [step] on a ship whose velocity is within
    207.792 on each axis leaves a ship whose velocity is within 207.792 on
    each axis. *)
Theorem ship_speed_bounded (E : Env) (dt : Q) (w : World) (s : Ship.t)
    (Htrig : trig_bounded E)
    (Hdt : -40 <= dt /\ dt <= 40)
    (Hmult : 0 <= shipSpeedMult w /\ shipSpeedMult w <= 2)
    (Hship : ship (state w) = Some s)
    (Hspeed : within_speed_limit s) :
  exists (w' : World) (s' : Ship.t),
    step E dt w = Some w'
    /\ ship (state w') = Some s'
    /\ within_speed_limit s'.
Proof.
  destruct Hdt as [Hd1 Hd2]. destruct Hmult as [Hm1 Hm2].
  destruct (step_spec E dt w s Hship) as (w' & w_in & Hrun & Hout & Hin).
  destruct Hout as (spawned & surv & destroyed & kids & _ & _ & _ & _ & _ & _
                    & _ & _ & _ & _ & Hs' & _).
  exists w'. destruct (restart_requested w).
  - destruct Hin as (wf & _ & ->).
    eexists. split; [exact Hrun|]. split; [exact Hs'|].
    unfold within_speed_limit, speed_limit. simpl. repeat split; lra.
  - destruct Hin as (bs & c & Hst & _). rewrite Hst in Hs'. simpl in Hs'.
    eexists. split; [exact Hrun|]. split; [exact Hs'|].
    destruct (controls_velocity E dt w s Htrig Hd1 Hd2 Hm1 Hm2)
      as [[Hx1 Hx2] [Hy1 Hy2]].
    destruct Hspeed as [[Vx1 Vx2] [Vy1 Vy2]].
    unfold within_speed_limit, speed_limit in *. simpl. repeat split; lra.
Qed.

Lemma sample_trig_bounded : trig_bounded sampleEnv.
Proof. intros a. simpl. repeat split; lra. Qed.

Lemma fresh_ship_within_limit : within_speed_limit (fresh_ship sampleEnv).
Proof. unfold within_speed_limit, speed_limit. simpl. repeat split; lra. Qed.

Lemma ship_speed_bounded_witness :
  exists (w' : World) (s' : Ship.t),
    step sampleEnv 40 w_thrust = Some w'
    /\ ship (state w') = Some s'
    /\ within_speed_limit s'.
Proof.
  apply (ship_speed_bounded sampleEnv 40 w_thrust (fresh_ship sampleEnv)
           sample_trig_bounded).
  - split; lra.
  - split; simpl; lra.
  - reflexivity.
  - exact fresh_ship_within_limit.
Defined.

(** ** The worlds of a game are well formed *)

(** Every world of a game has a ship, so that [step] never takes its
    null-ship return and [render] never throws: every frame completes.  No
    bullet in it has expired, the radii of its asteroids are those of the
    game, its score is not negative and its spawn interval is 500 or more.
    All this is what [reset] establishes, on any world, and what
    [spawnAsteroid], the key handlers, [step] and [loop] keep. *)
Theorem running_game_well_formed (w : World) (Hplayed : played w) :
  well_formed w
  /\ (forall (E : Env) (t : Q),
        exists w' : World, loop E t w = Some w' /\ frame E t w = Some w')
  /\ (forall (E : Env) (w0 : World), well_formed (reset E w0))
  /\ (forall (E : Env) (w0 : World),
        random_upto_one E -> well_formed w0 ->
        well_formed (spawnAsteroid E w0))
  /\ (forall (code : string) (w0 : World),
        well_formed w0 ->
        well_formed (keydown code w0) /\ well_formed (keyup code w0))
  /\ (forall (E : Env) (dt : Q) (w0 w1 : World),
        random_upto_one E -> well_formed w0 -> step E dt w0 = Some w1 ->
        well_formed w1)
  /\ (forall (E : Env) (t : Q) (w0 w1 : World),
        random_upto_one E -> well_formed w0 -> loop E t w0 = Some w1 ->
        well_formed w1).
Proof.
  pose proof (played_well_formed w Hplayed) as Hw.
  split; [exact Hw|]. split.
  { intros E t. destruct Hw as ((s & Hs) & _).
    assert (Hloop : exists w' : World,
               loop E t w = Some w'
               /\ exists s' : Ship.t, ship (state w') = Some s').
    { unfold loop. cbv zeta.
      change (gameOver (state (upd (set_lastTime t) w)))
        with (gameOver (state w)).
      destruct (gameOver (state w)).
      - eexists. split; [reflexivity|]. exists s. exact Hs.
      - destruct (step_total E (loop_dt t w) (upd (set_lastTime t) w))
          as [w' Hstep].
        exists w'. split; [exact Hstep|].
        exact (step_keeps_ship E (loop_dt t w) (upd (set_lastTime t) w) w' s
                 Hs Hstep). }
    destruct Hloop as (w' & Hrun & s' & Hs').
    exists w'. split; [exact Hrun|].
    unfold frame. rewrite Hrun. simpl. unfold render. rewrite Hs'.
    reflexivity. }
  split; [exact reset_well_formed|].
  split; [exact spawnAsteroid_well_formed|].
  split.
  { intros code w0 Hw0. split; [apply keydown_well_formed; exact Hw0|].
    exact Hw0. }
  split.
  - intros E dt w0 w1 HR Hw0 Hstep.
    apply (step_well_formed E dt w0 w1 HR Hw0 Hstep).
  - intros E t w0 w1 HR Hw0 Hloop.
    apply (loop_well_formed E t w0 w1 HR Hw0 Hloop).
Qed.

Lemma running_game_well_formed_witness :
  well_formed w_fight
  /\ (forall (E : Env) (t : Q),
        exists w' : World,
          loop E t w_fight = Some w' /\ frame E t w_fight = Some w')
  /\ (forall (E : Env) (w0 : World), well_formed (reset E w0))
  /\ (forall (E : Env) (w0 : World),
        random_upto_one E -> well_formed w0 ->
        well_formed (spawnAsteroid E w0))
  /\ (forall (code : string) (w0 : World),
        well_formed w0 ->
        well_formed (keydown code w0) /\ well_formed (keyup code w0))
  /\ (forall (E : Env) (dt : Q) (w0 w1 : World),
        random_upto_one E -> well_formed w0 -> step E dt w0 = Some w1 ->
        well_formed w1)
  /\ (forall (E : Env) (t : Q) (w0 w1 : World),
        random_upto_one E -> well_formed w0 -> loop E t w0 = Some w1 ->
        well_formed w1).
Proof.
  exact (running_game_well_formed w_fight w_fight_played).
Defined.
